(** * Hermes context memory and anti-rot curation engine

    A shallow embedding of the two pieces of the backend that bound the
    growth of conversational context:

    - the conversation curator of [hermes-web/backend/main.py]
      ([estimate_tokens], [summarize_messages], [curate_conversation]);
    - the in-process context store of
      [hermes-web/backend/services/context_management_service.py]
      ([store_context], [retrieve_context], [compress_context],
      [summarize_contexts], [prevent_decay], [get_context_statistics] and
      their private helpers), together with the store, summarize and delete
      routes of [hermes-web/backend/api/context_management_routes.py];
    - the callers of the curator in [main.py]: [create_message] with its
      inline auto-curation, [list_messages] and [list_summaries].

    Conventions of the embedding.

    - Python [str] is [string]; [len] is [String.length].  Case mapping and
      white space follow Python on the ASCII range.
    - Python [int] is [Z] (or [nat] for lengths and counters that start at a
      length); [datetime] is a count of microseconds in [Z].
    - Python [float] scores are exact rationals [Q].  A relevance score is
      a quotient of two word counts and is compared with 0.3; an importance
      score is compared with 0.5; the products [n * 0.6] and [b * 0.1] are
      truncated.  For lengths and budgets below 2^53 the binary64 code
      takes the same branch and truncates to the same integer ([3n/5] and
      [b/10]) as the exact arithmetic used here.
    - [uuid4()] and [datetime.now()] are read from the environment: the
      fresh identifier and the clock readings are arguments.
    - A Python [dict] is an insertion-ordered association list, because the
      order of [dict.values()] decides ties in [retrieve_context]. *)

From Stdlib Require Import ZArith QArith Qminmax Lia Lqa.
From Stdlib Require Import Ascii String.
From Stdlib Require Import Sorting.Sorted Sorting.Permutation.
From stdpp Require Import base tactics option list strings.

Local Open Scope Z_scope.

(** ** Python string primitives (ASCII range) *)

Module PyStr.

Definition LF : string := String "010"%char EmptyString.

(** [str.isspace] on one ASCII character: TAB, LF, VT, FF, CR, the four
    separators FS, GS, RS, US and the space. *)
Definition isspace (c : ascii) : bool :=
  let n := nat_of_ascii c in
  ((9 <=? n)%nat && (n <=? 13)%nat)
  || ((28 <=? n)%nat && (n <=? 32)%nat).

(** [c.isupper()] and [c.lower()] on one ASCII character. *)
Definition isupper (c : ascii) : bool :=
  let n := nat_of_ascii c in (65 <=? n)%nat && (n <=? 90)%nat.

Definition lower_char (c : ascii) : ascii :=
  if isupper c then ascii_of_nat (nat_of_ascii c + 32) else c.

Fixpoint lower (s : string) : string :=
  match s with
  | EmptyString => EmptyString
  | String c s' => String (lower_char c) (lower s')
  end.

Fixpoint lstrip (s : string) : string :=
  match s with
  | EmptyString => EmptyString
  | String c s' => if isspace c then lstrip s' else s
  end.

(** [s.strip()] *)
Definition strip (s : string) : string :=
  String.rev (lstrip (String.rev (lstrip s))).

(** [not s] for a string: true exactly on the empty string. *)
Definition is_empty (s : string) : bool :=
  match s with EmptyString => true | _ => false end.

(** [s.split()], no separator: maximal runs of non-space characters.
    [cur] is the run being read, reversed. *)
Fixpoint split_go (cur : string) (s : string) : list string :=
  match s with
  | EmptyString => if is_empty cur then [] else [String.rev cur]
  | String c s' =>
      if isspace c
      then (if is_empty cur then [] else [String.rev cur]) ++ split_go EmptyString s'
      else split_go (String c cur) s'
  end.

Definition split (s : string) : list string := split_go EmptyString s.

(** [s.split(c)] for a one-character separator: never empty, keeps empty
    pieces. *)
Fixpoint split_char_go (sep : ascii) (cur : string) (s : string) : list string :=
  match s with
  | EmptyString => [String.rev cur]
  | String c s' =>
      if Ascii.eqb c sep
      then String.rev cur :: split_char_go sep EmptyString s'
      else split_char_go sep (String c cur) s'
  end.

Definition split_char (sep : ascii) (s : string) : list string :=
  split_char_go sep EmptyString s.

(** [s.split(". ")[0]]: the text before the leftmost full stop followed by
    a space, the whole text when there is none. *)
Fixpoint first_sentence (s : string) : string :=
  match s with
  | EmptyString => EmptyString
  | String c s' =>
      match s' with
      | String d _ =>
          if Ascii.eqb c "."%char && Ascii.eqb d " "%char
          then EmptyString
          else String c (first_sentence s')
      | EmptyString => String c EmptyString
      end
  end.

(** [sep.join(l)] *)
Fixpoint join (sep : string) (l : list string) : string :=
  match l with
  | [] => EmptyString
  | [x] => x
  | x :: rest => x +:+ sep +:+ join sep rest
  end.

(** [s[:n]] and [s[-n:]] for [n >= 0] *)
Definition take (n : nat) (s : string) : string := String.substring 0 n s.

Definition take_last (n : nat) (s : string) : string :=
  String.substring (String.length s - n) n s.

(** [sub in s] *)
Fixpoint contains (sub s : string) : bool :=
  String.prefix sub s ||
  match s with
  | EmptyString => false
  | String _ s' => contains sub s'
  end.

End PyStr.

(** ** The stable sort behind [list.sort] and [ORDER BY]

    [before y x] says that [y] sorts strictly ahead of [x].  Insertion from
    the right keeps elements that neither precedes the other in their input
    order, which is the stability contract of Python's [list.sort], also
    under [reverse=True]. *)

Section StableSort.
Context {A : Type} (before : A -> A -> bool).

Fixpoint insert_sorted (x : A) (l : list A) : list A :=
  match l with
  | [] => [x]
  | y :: l' => if before y x then y :: insert_sorted x l' else x :: y :: l'
  end.

Definition stable_sort (l : list A) : list A := foldr insert_sorted [] l.
End StableSort.

(** ** The conversation curator ([main.py]) *)

Module Curator.

Record Message := mkMessage {
  msg_id : string;
  msg_conversation_id : option string;
  sender : string;
  content : option string;
  msg_created_at : Z
}.

Record Summary := mkSummary {
  sum_id : string;
  sum_conversation_id : option string;
  summary : string;
  period : string;
  generated_by : string;
  sum_created_at : Z
}.

(** The two tables the curator touches, rows in insertion order. *)
Record Db := mkDb {
  messages : list Message;
  summaries : list Summary
}.

(** [CONTEXT_BUDGET_MESSAGES] and [CONTEXT_BUDGET_TOKENS], read from the
    process environment once at start-up. *)
Record Budgets := mkBudgets {
  CONTEXT_BUDGET_MESSAGES : Z;
  CONTEXT_BUDGET_TOKENS : Z
}.

Definition default_budgets : Budgets := mkBudgets 50 8000.

Record CurateResponse := mkCurateResponse {
  summarized : bool;
  created_summary_id : option string;
  total_messages : Z;
  total_tokens : Z;
  budget_messages : Z;
  budget_tokens : Z
}.

(** [estimate_tokens]: [int(len(text) / 4)] is the integer quotient. *)
Definition estimate_tokens (text : string) : Z :=
  if PyStr.is_empty text then 0
  else Z.max 1 (Z.of_nat (String.length text) / 4).

(** [r.content or ""] *)
Definition content_or_empty (m : Message) : string :=
  match content m with
  | Some s => s
  | None => EmptyString
  end.

(** The loop of [summarize_messages]: the parts collected from [msgs]
    with [budget] tokens left. *)
Fixpoint summarize_parts (msgs : list Message) (budget : Z) : list string :=
  match msgs with
  | [] => []
  | m :: rest =>
      let txt := PyStr.strip (content_or_empty m) in
      if PyStr.is_empty txt then summarize_parts rest budget
      else
        let sent := PyStr.first_sentence txt in
        let part := "[" +:+ sender m +:+ "] " +:+ sent in
        let budget' := budget - estimate_tokens sent in
        if budget' <=? 0 then [part] else part :: summarize_parts rest budget'
  end.

Definition header : string :=
  "[Curator v1] Conversation summary (extractive, STUB)".

Definition summarize_messages (msgs : list Message) (target_tokens : Z) : string :=
  match summarize_parts msgs target_tokens with
  | [] => EmptyString
  | parts => header +:+ PyStr.LF +:+ PyStr.join PyStr.LF parts
  end.

(** [db.query(Message).filter(conversation_id == cid)
      .order_by(created_at.asc()).all()].  Rows with equal [created_at],
    whose order SQL leaves open, are taken in table order. *)
Definition load_messages (cid : string) (db : Db) : list Message :=
  stable_sort (fun a b => msg_created_at a <? msg_created_at b)
    (filter (fun m => msg_conversation_id m = Some cid) (messages db)).

Definition sum_tokens (rows : list Message) : Z :=
  foldr (fun r acc => estimate_tokens (content_or_empty r) + acc) 0 rows.

(** [max(0, int(total_messages * 0.6))] *)
Definition cutoff_idx (n : nat) : nat := (3 * n / 5)%nat.

(** [max(256, int(CONTEXT_BUDGET_TOKENS * 0.1))]; [int] truncates toward
    zero. *)
Definition target_tokens (cfg : Budgets) : Z :=
  Z.max 256 (Z.quot (CONTEXT_BUDGET_TOKENS cfg) 10).

(** The rows [curate_conversation] hands to the summarizer. *)
Definition to_summarize (rows : list Message) : list Message :=
  firstn (cutoff_idx (length rows)) rows.

(** [curate_conversation].  [new_id] is the value of [uuid4()] and [now]
    the value of [datetime.utcnow()] for the summary row. *)
Definition curate_conversation (cfg : Budgets) (conversation_id : string)
    (new_id : string) (now : Z) (db : Db) : CurateResponse * Db :=
  let rows := load_messages conversation_id db in
  let n := Z.of_nat (length rows) in
  let toks := sum_tokens rows in
  if (n <=? CONTEXT_BUDGET_MESSAGES cfg) && (toks <=? CONTEXT_BUDGET_TOKENS cfg)
  then (mkCurateResponse false None n toks
          (CONTEXT_BUDGET_MESSAGES cfg) (CONTEXT_BUDGET_TOKENS cfg), db)
  else
    let summary_text := summarize_messages (to_summarize rows) (target_tokens cfg) in
    let summ := mkSummary new_id (Some conversation_id) summary_text
                  "on_event" "curator_v1" now in
    (mkCurateResponse true (Some new_id) n toks
       (CONTEXT_BUDGET_MESSAGES cfg) (CONTEXT_BUDGET_TOKENS cfg),
     mkDb (messages db) (summaries db ++ [summ])).

(** The body of a [POST /memory/messages] request. *)
Record MessageCreate := mkMessageCreate {
  payload_conversation_id : string;
  payload_sender : string;
  payload_content : string
}.

(** [create_message]: the row is inserted first; with [AUTO_CURATE] set and
    a non-empty conversation id the handler then repeats the curation
    inline.  [new_id] and [now] belong to the message row, [summary_id] and
    [summary_now] to the summary row.  The columns [role] and
    [token_count] are copied from the request to the row and read by no
    other code here. *)
Definition create_message (AUTO_CURATE : bool) (cfg : Budgets)
    (payload : MessageCreate) (new_id : string) (now : Z)
    (summary_id : string) (summary_now : Z) (db : Db) : Message * Db :=
  let msg := mkMessage new_id (Some (payload_conversation_id payload))
               (payload_sender payload) (Some (payload_content payload)) now in
  let db1 := mkDb (messages db ++ [msg]) (summaries db) in
  if AUTO_CURATE && negb (PyStr.is_empty (payload_conversation_id payload)) then
    let rows := load_messages (payload_conversation_id payload) db1 in
    let n := Z.of_nat (length rows) in
    let toks := sum_tokens rows in
    if (CONTEXT_BUDGET_MESSAGES cfg <? n) || (CONTEXT_BUDGET_TOKENS cfg <? toks) then
      let summary_text := summarize_messages (to_summarize rows) (target_tokens cfg) in
      let summ := mkSummary summary_id (Some (payload_conversation_id payload))
                    summary_text "on_event" "curator_v1" summary_now in
      (msg, mkDb (messages db1) (summaries db1 ++ [summ]))
    else (msg, db1)
  else (msg, db1).

(** [list_messages] *)
Definition list_messages (conversation_id : string) (db : Db) : list Message :=
  load_messages conversation_id db.

(** [list_summaries] *)
Definition list_summaries (conversation_id : string) (db : Db) : list string :=
  map summary
    (stable_sort (fun a b => sum_created_at a <? sum_created_at b)
       (filter (fun r => sum_conversation_id r = Some conversation_id) (summaries db))).

(** The number of characters a conversation holds. *)
Definition total_chars (rows : list Message) : Z :=
  foldr (fun r acc => Z.of_nat (String.length (content_or_empty r)) + acc) 0 rows.

(** A message whose content is empty once stripped; the summarizer skips
    it. *)
Definition blank (m : Message) : bool :=
  PyStr.is_empty (PyStr.strip (content_or_empty m)).

End Curator.

(** ** Insertion-ordered dictionaries with string keys *)

Module Dict.
Section Ops.
Context {V : Type}.

(** [d.get(k)] *)
Fixpoint get (k : string) (d : list (string * V)) : option V :=
  match d with
  | [] => None
  | (k', v) :: d' => if String.eqb k k' then Some v else get k d'
  end.

(** [k in d] *)
Definition mem (k : string) (d : list (string * V)) : bool :=
  match get k d with Some _ => true | None => false end.

(** [d[k] = v]: an existing key keeps its position, a new key goes last. *)
Fixpoint set (k : string) (v : V) (d : list (string * V)) : list (string * V) :=
  match d with
  | [] => [(k, v)]
  | (k', v') :: d' =>
      if String.eqb k k' then (k', v) :: d' else (k', v') :: set k v d'
  end.

(** [del d[k]].  Python raises [KeyError] on an absent key; both callers
    delete a key they have just seen in the dict. *)
Fixpoint del (k : string) (d : list (string * V)) : list (string * V) :=
  match d with
  | [] => []
  | (k', v') :: d' =>
      if String.eqb k k' then d' else (k', v') :: del k d'
  end.

(** In-place mutation of the object stored under [k]. *)
Fixpoint update (f : V -> V) (k : string) (d : list (string * V)) : list (string * V) :=
  match d with
  | [] => []
  | (k', v') :: d' =>
      if String.eqb k k' then (k', f v') :: d' else (k', v') :: update f k d'
  end.

(** In-place mutation of the object at position [i] of [d.values()]. *)
Definition update_at (f : V -> V) (i : nat) (d : list (string * V)) : list (string * V) :=
  alter (fun e => (e.1, f e.2)) i d.

Definition keys (d : list (string * V)) : list string := map fst d.
Definition values (d : list (string * V)) : list V := map snd d.

(** A Python dict holds each key once. *)
Definition wf (d : list (string * V)) : Prop := NoDup (keys d).
End Ops.
End Dict.

(** ** The context store ([services/context_management_service.py]) *)

Module ContextService.

Inductive ContextType :=
| CONVERSATION | CODE_ANALYSIS | DEBATE_SESSION
| MEDITATION_INSIGHT | TRAINING_DATA | USER_FEEDBACK.

Inductive ContextPriority := LOW | MEDIUM | HIGH | CRITICAL.

Definition type_value (t : ContextType) : string :=
  match t with
  | CONVERSATION => "conversation"
  | CODE_ANALYSIS => "code_analysis"
  | DEBATE_SESSION => "debate_session"
  | MEDITATION_INSIGHT => "meditation_insight"
  | TRAINING_DATA => "training_data"
  | USER_FEEDBACK => "user_feedback"
  end.

Definition priority_value (p : ContextPriority) : Z :=
  match p with LOW => 1 | MEDIUM => 2 | HIGH => 3 | CRITICAL => 4 end.

Definition type_eqb (a b : ContextType) : bool :=
  match a, b with
  | CONVERSATION, CONVERSATION | CODE_ANALYSIS, CODE_ANALYSIS
  | DEBATE_SESSION, DEBATE_SESSION | MEDITATION_INSIGHT, MEDITATION_INSIGHT
  | TRAINING_DATA, TRAINING_DATA | USER_FEEDBACK, USER_FEEDBACK => true
  | _, _ => false
  end.

(** The owner-supplied key/value map; the store never looks inside. *)
Definition Metadata := list (string * string).

Record ContextChunk := mkChunk {
  id : string;
  content : string;
  context_type : ContextType;
  priority : ContextPriority;
  created_at : Z;
  last_accessed : Z;
  access_count : Z;
  importance_score : Q;
  compressed : bool;
  summary : option string;
  metadata : Metadata
}.

Record ContextSummary := mkContextSummary {
  summary_id : string;
  original_chunks : list string;
  summary_text : string;
  key_points : list string;
  entities : list string;
  relationships : list (string * string);
  summary_created_at : Z;
  quality_score : Q
}.

Record Service := mkService {
  context_chunks : list (string * ContextChunk);
  context_summaries : list (string * ContextSummary)
}.

(** [ContextManagementService()] *)
Definition init : Service := mkService [] [].

(** The thresholds set in [__init__] and never reassigned. *)
Definition decay_threshold : Z := 30.
Definition compression_threshold : nat := 100.

(** [timedelta(days=d)] in microseconds. *)
Definition days (d : Z) : Z := d * 86400 * 1000000.

Definition Qltb (x y : Q) : bool :=
  match (x ?= y)%Q with Lt => true | _ => false end.

(** *** Private helpers *)

Definition type_score (t : ContextType) : Q :=
  match t with
  | CONVERSATION => 8 # 10
  | CODE_ANALYSIS => 9 # 10
  | DEBATE_SESSION => 95 # 100
  | MEDITATION_INSIGHT => 1
  | TRAINING_DATA => 9 # 10
  | USER_FEEDBACK => 85 # 100
  end.

Definition _calculate_importance_score
    (content : string) (context_type : ContextType) (priority : ContextPriority) : Q :=
  let base_score := (priority_value priority # 4)%Q in
  let length_score := Qmin (Z.of_nat (String.length content) # 1000) 1 in
  let type_score := type_score context_type in
  let importance_score :=
    (base_score * (4 # 10) + length_score * (3 # 10) + type_score * (3 # 10))%Q in
  Qmin importance_score 1.

(** [set(s.lower().split())] as a duplicate-free list. *)
Definition word_set (s : string) : list string :=
  remove_dups (PyStr.split (PyStr.lower s)).

Definition _calculate_relevance_score (query content : string) : Q :=
  let query_words := word_set query in
  let content_words := word_set content in
  match query_words with
  | [] => 0
  | _ =>
      let intersection :=
        List.filter (fun w => bool_decide (w ∈ content_words)) query_words in
      (Z.of_nat (length intersection) # Pos.of_nat (length query_words))%Q
  end.

Definition _generate_summary (content : string) : string :=
  let sentences := PyStr.split_char "."%char content in
  if (length sentences <=? 3)%nat then content
  else PyStr.join ". " (firstn 3 sentences) +:+ ".".

Definition _compress_content (content : string) : string :=
  if (String.length content <=? compression_threshold)%nat then content
  else if (400 <? String.length content)%nat
  then PyStr.take 200 content
         +:+ PyStr.LF +:+ "... [compressed] ..." +:+ PyStr.LF
         +:+ PyStr.take_last 200 content
  else PyStr.take 200 content +:+ "... [compressed]".

(** The loop stops as soon as five key points are collected. *)
Definition _extract_key_points (content : string) : list string :=
  firstn 5
    (List.filter (fun s => (20 <? String.length s)%nat)
       (map PyStr.strip (PyStr.split_char "."%char content))).

Definition first_isupper (w : string) : bool :=
  match w with
  | String c _ => PyStr.isupper c
  | EmptyString => false
  end.

(** [list(set(entities))]: the set is kept in order of first occurrence;
    Python fixes no order for it. *)
Definition _extract_entities (content : string) : list string :=
  remove_dups
    (List.filter (fun w => first_isupper w && (2 <? String.length w)%nat)
       (PyStr.split content)).

Definition _extract_relationships (content : string) : list (string * string) :=
  let low := PyStr.lower content in
  (if PyStr.contains "caused by" low then [("causation", "caused by")] else [])
  ++ (if PyStr.contains "related to" low then [("relation", "related to")] else [])
  ++ (if PyStr.contains "depends on" low then [("dependency", "depends on")] else []).

Definition _calculate_summary_quality (summary : string) : Q :=
  let length_score := Qmin (Z.of_nat (String.length summary) # 500) 1 in
  let sentence_count := length (PyStr.split_char "."%char summary) in
  let sentence_score := Qmin (Z.of_nat sentence_count # 5) 1 in
  let quality_score := (length_score * (6 # 10) + sentence_score * (4 # 10))%Q in
  Qmin quality_score 1.

(** *** Errors

    The failure classes a caller can be handed.  No operation below
    raises: the [try] blocks of the source re-raise or swallow exceptions
    that none of the modelled primitives throws. *)

Inductive ServiceError := InvalidArgument | NotFound.

Inductive result (A : Type) :=
| Ok (a : A)
| Raise (e : ServiceError).
Arguments Ok {A} a.
Arguments Raise {A} e.

(** *** Public operations *)

(** [metadata or {}] *)
Definition metadata_or_empty (m : option Metadata) : Metadata :=
  match m with Some kv => kv | None => [] end.

(** [store_context]; [context_id] is the value of [uuid4()], [now] the
    clock reading. *)
Definition store_context (content : string) (context_type : ContextType)
    (priority : ContextPriority) (metadata : option Metadata)
    (context_id : string) (now : Z) (s : Service) : string * Service :=
  let importance_score := _calculate_importance_score content context_type priority in
  let chunk :=
    mkChunk context_id content context_type priority now now 1
      importance_score false None (metadata_or_empty metadata) in
  (context_id,
   mkService (Dict.set context_id chunk (context_chunks s)) (context_summaries s)).

(** [l[:limit]] for any integer [limit]. *)
Definition slice_to {A} (limit : Z) (l : list A) : list A :=
  if 0 <=? limit then firstn (Z.to_nat limit) l
  else firstn (length l - Z.to_nat (- limit)) l.

(** [if context_type and chunk.context_type != context_type: continue];
    an enum member is always truthy. *)
Definition type_matches (type_filter : option ContextType) (c : ContextChunk) : bool :=
  match type_filter with
  | None => true
  | Some t => type_eqb (context_type c) t
  end.

(** The first loop of [retrieve_context].  A chunk object is named by its
    position in [context_chunks.values()]; [i] is the position of the
    head of [d]. *)
Fixpoint relevant_from (query : string) (type_filter : option ContextType)
    (i : nat) (d : list (string * ContextChunk)) : list (nat * Q) :=
  match d with
  | [] => []
  | (_, chunk) :: d' =>
      if type_matches type_filter chunk then
        let relevance_score := _calculate_relevance_score query (content chunk) in
        if Qltb (3 # 10) relevance_score
        then (i, relevance_score) :: relevant_from query type_filter (S i) d'
        else relevant_from query type_filter (S i) d'
      else relevant_from query type_filter (S i) d'
  end.

Definition relevant_chunks (query : string) (type_filter : option ContextType)
    (s : Service) : list (nat * Q) :=
  relevant_from query type_filter 0 (context_chunks s).

(** [relevant_chunks.sort(key=lambda x: x[1], reverse=True)] *)
Definition higher_score (y x : nat * Q) : bool := Qltb x.2 y.2.

Definition ranked (query : string) (type_filter : option ContextType)
    (s : Service) : list (nat * Q) :=
  stable_sort higher_score (relevant_chunks query type_filter s).

(** The positions of the chunks in [relevant_chunks[:limit]]. *)
Definition selected (query : string) (type_filter : option ContextType)
    (limit : Z) (s : Service) : list nat :=
  map fst (slice_to limit (ranked query type_filter s)).

Definition touch (now : Z) (c : ContextChunk) : ContextChunk :=
  mkChunk (id c) (content c) (context_type c) (priority c) (created_at c)
    now (access_count c + 1) (importance_score c)
    (compressed c) (summary c) (metadata c).

(** The second loop: the [j]-th chunk touched reads the clock as
    [clock j]. *)
Fixpoint touch_all (clock : nat -> Z) (j : nat) (sel : list nat)
    (d : list (string * ContextChunk)) : list (string * ContextChunk) :=
  match sel with
  | [] => d
  | i :: rest => touch_all clock (S j) rest (Dict.update_at (touch (clock j)) i d)
  end.

(** [retrieve_context].  The returned list holds the stored objects
    themselves, so it is read from the store after the second loop. *)
Definition retrieve_context (query : string) (type_filter : option ContextType)
    (limit : Z) (clock : nat -> Z) (s : Service) : list ContextChunk * Service :=
  let sel := selected query type_filter limit s in
  let chunks' := touch_all clock 0 sel (context_chunks s) in
  (omap (fun i => snd <$> chunks' !! i) sel,
   mkService chunks' (context_summaries s)).

Definition compress_chunk (c : ContextChunk) : ContextChunk :=
  mkChunk (id c) (_compress_content (content c)) (context_type c) (priority c)
    (created_at c) (last_accessed c) (access_count c) (importance_score c)
    true (Some (_generate_summary (content c))) (metadata c).

(** [compress_context] *)
Definition compress_context (context_id : string) (s : Service) : bool * Service :=
  match Dict.get context_id (context_chunks s) with
  | None => (false, s)
  | Some chunk =>
      if compressed chunk || (String.length (content chunk) <? compression_threshold)%nat
      then (false, s)
      else (true,
            mkService (Dict.update compress_chunk context_id (context_chunks s))
              (context_summaries s))
  end.

(** The chunks named by [context_ids] that the store holds, in the order
    of the ids. *)
Definition found_chunks (context_ids : list string) (s : Service) : list ContextChunk :=
  omap (fun cid => Dict.get cid (context_chunks s)) context_ids.

(** [summarize_contexts]; [summary_type] is accepted and ignored. *)
Definition summarize_contexts (context_ids : list string) (summary_type : string)
    (new_id : string) (now : Z) (s : Service) : result string * Service :=
  match found_chunks context_ids s with
  | [] => (Ok EmptyString, s)
  | chunks =>
      let combined_content :=
        PyStr.join (PyStr.LF +:+ PyStr.LF)
          (map (fun chunk => "[" +:+ type_value (context_type chunk) +:+ "] "
                             +:+ content chunk) chunks) in
      let summary := _generate_summary combined_content in
      let context_summary :=
        mkContextSummary new_id context_ids summary
          (_extract_key_points combined_content)
          (_extract_entities combined_content)
          (_extract_relationships combined_content)
          now
          (_calculate_summary_quality summary) in
      (Ok new_id,
       mkService (context_chunks s)
         (Dict.set new_id context_summary (context_summaries s)))
  end.

(** One iteration of the loop of [prevent_decay] over the snapshot
    [list(self.context_chunks.items())]. *)
Definition decay_step (now : Z) (acc : Service * Z)
    (item : string * ContextChunk) : Service * Z :=
  let '(s, decayed_count) := acc in
  let '(context_id, chunk) := item in
  if days decay_threshold <? now - last_accessed chunk then
    if Qltb (importance_score chunk) (1 # 2)
    then (mkService (Dict.del context_id (context_chunks s)) (context_summaries s),
          decayed_count + 1)
    else ((compress_context context_id s).2, decayed_count + 1)
  else acc.

(** [prevent_decay] *)
Definition prevent_decay (now : Z) (s : Service) : Z * Service :=
  let '(s', decayed_count) := foldl (decay_step now) (s, 0) (context_chunks s) in
  (decayed_count, s').

(** The delete route of [api/context_management_routes.py]. *)
Definition delete_context (context_id : string) (s : Service) : bool * Service :=
  if Dict.mem context_id (context_chunks s)
  then (true, mkService (Dict.del context_id (context_chunks s)) (context_summaries s))
  else (false, s).

(** *** Reachable stores

    The states the service can be in: the fresh service, closed under
    every mutating call a client can make. *)

Inductive reachable : Service -> Prop :=
| reach_init : reachable init
| reach_store s content ty pr meta cid now :
    reachable s -> reachable (store_context content ty pr meta cid now s).2
| reach_retrieve s query type_filter limit clock :
    reachable s -> reachable (retrieve_context query type_filter limit clock s).2
| reach_compress s cid :
    reachable s -> reachable (compress_context cid s).2
| reach_delete s cid :
    reachable s -> reachable (delete_context cid s).2
| reach_sweep s now :
    reachable s -> reachable (prevent_decay now s).2
| reach_summarize s ids summary_type new_id now :
    reachable s -> reachable (summarize_contexts ids summary_type new_id now s).2.

(** What one pass of the sweep does to the entry of a decayed chunk:
    [entry] is what the store holds under the chunk's id when its turn
    comes. *)
Definition decayed_entry (chunk : ContextChunk) (entry : option ContextChunk)
    : option ContextChunk :=
  if Qltb (importance_score chunk) (1 # 2) then None
  else match entry with
       | None => None
       | Some c =>
           if compressed c || (String.length (content c) <? compression_threshold)%nat
           then Some c
           else Some (compress_chunk c)
       end.

(** The consistency of the two compression fields of a chunk. *)
Definition summary_iff_compressed (c : ContextChunk) : Prop :=
  summary c <> None <-> compressed c = true.

Definition consistent (s : Service) : Prop :=
  Forall summary_iff_compressed (Dict.values (context_chunks s)).

(** *** The order of a retrieval

    Entries are pairs of a store position and a relevance score.
    [earlier a b]: [a] sits before [b] in the store.  [rank_order a b]:
    [a] has the higher score or, at equal scores, the earlier position. *)

Definition earlier (a b : nat * Q) : Prop := (a.1 < b.1)%nat.

Definition rank_order (a b : nat * Q) : Prop :=
  (b.2 < a.2)%Q \/ ((a.2 == b.2)%Q /\ (a.1 < b.1)%nat).

(** The chunk at position [p.1] passes the type filter and has relevance
    [p.2], above the threshold. *)
Definition is_candidate (query : string) (type_filter : option ContextType)
    (s : Service) (p : nat * Q) : Prop :=
  exists k c,
    context_chunks s !! p.1 = Some (k, c)
    /\ type_matches type_filter c = true
    /\ p.2 = _calculate_relevance_score query (content c)
    /\ (3 # 10 < p.2)%Q.

(** The chunk at position [i] as it was before the call, with the access
    fields a retrieval at time [now] gives it. *)
Definition touched_at (s : Service) (now : Z) (i : nat) : option ContextChunk :=
  touch now <$> (snd <$> context_chunks s !! i).

(** *** Statistics *)

Record Statistics := mkStatistics {
  total_chunks : nat;
  compressed_chunks : nat;
  total_summaries : nat;
  type_distribution : list (string * nat);
  priority_distribution : list (Z * nat);
  compression_rate : Q
}.

(** [counts[k] = counts.get(k, 0) + 1] on an insertion-ordered dict. *)
Fixpoint bump {K} (eqb : K -> K -> bool) (k : K) (counts : list (K * nat)) : list (K * nat) :=
  match counts with
  | [] => [(k, 1%nat)]
  | (k', n) :: rest =>
      if eqb k k' then (k', (n + 1)%nat) :: rest else (k', n) :: bump eqb k rest
  end.

Definition tally {K} (eqb : K -> K -> bool) (ks : list K) : list (K * nat) :=
  foldl (fun counts k => bump eqb k counts) [] ks.

(** [get_context_statistics] *)
Definition get_context_statistics (s : Service) : Statistics :=
  let chunks := Dict.values (context_chunks s) in
  let total := length chunks in
  let compressed_count := length (List.filter compressed chunks) in
  mkStatistics total compressed_count (length (context_summaries s))
    (tally String.eqb (map (fun c => type_value (context_type c)) chunks))
    (tally Z.eqb (map (fun c => priority_value (priority c)) chunks))
    (if (0 <? total)%nat then (Z.of_nat compressed_count # Pos.of_nat total)%Q else 0).

(** *** The sweep, entry by entry *)

(** [now - chunk.last_accessed > decay_threshold] *)
Definition stale (now : Z) (c : ContextChunk) : bool :=
  days decay_threshold <? now - last_accessed c.

(** What one sweep at time [now] leaves of a stored chunk. *)
Definition swept (now : Z) (c : ContextChunk) : option ContextChunk :=
  if stale now c then decayed_entry c (Some c) else Some c.

Definition swept_entry (now : Z) (e : string * ContextChunk) : option (string * ContextChunk) :=
  (fun c => (e.1, c)) <$> swept now e.2.

(** The fields of a chunk that compression and retrieval leave alone. *)
Definition same_identity (a b : ContextChunk) : Prop :=
  id a = id b /\ context_type a = context_type b /\ priority a = priority b
  /\ created_at a = created_at b /\ importance_score a = importance_score b
  /\ metadata a = metadata b.



End ContextService.

(** ** The HTTP routes of the context store
       ([api/context_management_routes.py]) *)

Module Routes.
Import ContextService.

(** A JSON scalar as Python holds it. *)
Inductive PyValue := PyInt (z : Z) | PyStr (v : string).

(** [ContextType(value)]: the member with that value; [None] stands for
    the [ValueError] of an unknown value. *)
Definition ContextType_of_value (v : string) : option ContextType :=
  if String.eqb v "conversation" then Some CONVERSATION
  else if String.eqb v "code_analysis" then Some CODE_ANALYSIS
  else if String.eqb v "debate_session" then Some DEBATE_SESSION
  else if String.eqb v "meditation_insight" then Some MEDITATION_INSIGHT
  else if String.eqb v "training_data" then Some TRAINING_DATA
  else if String.eqb v "user_feedback" then Some USER_FEEDBACK
  else None.

(** [ContextPriority(value)]: the members have the integer values 1 to 4,
    and a string is equal to no integer. *)
Definition ContextPriority_of_value (v : PyValue) : option ContextPriority :=
  match v with
  | PyInt 1 => Some LOW
  | PyInt 2 => Some MEDIUM
  | PyInt 3 => Some HIGH
  | PyInt 4 => Some CRITICAL
  | _ => None
  end.

(** What a handler answers: a body, or an [HTTPException] with its status
    code. *)
Inductive Response (A : Type) :=
| Body (a : A)
| HTTPException (status_code : Z).
Arguments Body {A} a.
Arguments HTTPException {A} status_code.

Record StoreContextRequest := mkStoreContextRequest {
  req_content : string;
  req_context_type : string;
  req_priority : string;
  req_metadata : option Metadata
}.

(** [POST /context/store]; both conversions raise [ValueError], which the
    handler turns into status 400. *)
Definition store_context_route (request : StoreContextRequest)
    (context_id : string) (now : Z) (s : Service) : Response string * Service :=
  match ContextType_of_value (req_context_type request) with
  | None => (HTTPException 400, s)
  | Some context_type =>
      match ContextPriority_of_value (PyStr (req_priority request)) with
      | None => (HTTPException 400, s)
      | Some priority =>
          let r := store_context (req_content request) context_type priority
                     (req_metadata request) context_id now s in
          (Body r.1, r.2)
      end
  end.

Record SummaryResponse := mkSummaryResponse {
  resp_id : string;
  resp_summary_text : string;
  resp_key_points : list string;
  resp_entities : list string;
  resp_relationships : list (string * string);
  resp_quality_score : Q
}.

Definition summary_response (summary : ContextSummary) : SummaryResponse :=
  mkSummaryResponse (summary_id summary) (summary_text summary) (key_points summary)
    (entities summary) (relationships summary) (quality_score summary).

(** [POST /context/summarize]: the 404 raised inside the [try] block is
    caught by [except Exception] and answered as 500. *)
Definition summarize_contexts_route (context_ids : list string) (summary_type : string)
    (new_id : string) (now : Z) (s : Service) : Response SummaryResponse * Service :=
  match summarize_contexts context_ids summary_type new_id now s with
  | (Ok summary_id, s') =>
      match Dict.get summary_id (context_summaries s') with
      | None => (HTTPException 500, s')
      | Some summary => (Body (summary_response summary), s')
      end
  | (Raise _, s') => (HTTPException 500, s')
  end.

End Routes.

(** ** The formulas of the specification, written as it words them *)

Module Spec.
Import ContextService.

(** The token estimate of the curator: [max(1, len(text)/4)]. *)
Definition token_estimate (text : string) : Z :=
  Z.max 1 (Z.of_nat (String.length text) / 4).

(** The weight tables of the importance scorer. *)
Definition priority_weight (p : ContextPriority) : Q :=
  match p with
  | LOW => 25 # 100
  | MEDIUM => 5 # 10
  | HIGH => 75 # 100
  | CRITICAL => 1
  end.

Definition type_weight (t : ContextType) : Q :=
  match t with
  | CONVERSATION => 8 # 10
  | CODE_ANALYSIS => 9 # 10
  | DEBATE_SESSION => 95 # 100
  | MEDITATION_INSIGHT => 1
  | TRAINING_DATA => 9 # 10
  | USER_FEEDBACK => 85 # 100
  end.

Definition clamp (x lo hi : Q) : Q := Qmax lo (Qmin x hi).

Definition importance (content : string) (t : ContextType) (p : ContextPriority) : Q :=
  clamp (priority_weight p * (4 # 10)
         + Qmin (Z.of_nat (String.length content) # 1000) 1 * (3 # 10)
         + type_weight t * (3 # 10))%Q 0 1.

(** The order in which the specification lists retrieved chunks: higher
    relevance first and, at equal relevance, the chunk accessed last
    first.  [ahead q a b] says that [a] may stand directly before [b]. *)
Definition ahead (query : string) (a b : ContextChunk) : Prop :=
  let ra := _calculate_relevance_score query (content a) in
  let rb := _calculate_relevance_score query (content b) in
  (rb < ra)%Q \/ ((ra == rb)%Q /\ last_accessed b <= last_accessed a).
End Spec.

(** ** Concrete stores and conversations used as test inputs *)

Module Examples.
Import ContextService.

(** ["x" * n] *)
Fixpoint xs (n : nat) : string :=
  match n with
  | O => EmptyString
  | S n' => String "x"%char (xs n')
  end.

(** A conversation of 100 short messages, one per microsecond. *)
Definition long_conversation : Curator.Db :=
  Curator.mkDb
    (map (fun i => Curator.mkMessage (xs (S i)) (Some "c1") "user"
                     (Some "Hello there. How are you") (Z.of_nat i))
         (seq 0 100))
    [].

(** One critical insight with a short text, stored at time 0. *)
Definition short_insight : Service :=
  (store_context "short note" MEDITATION_INSIGHT CRITICAL None "k1" 0 init).2.

(** Two chunks that match the query ["database performance"] equally
    well; ["b"] is stored, and so last accessed, after ["a"]. *)
Definition two_hits : Service :=
  (store_context "performance database thing" CONVERSATION MEDIUM None "b" 2
     (store_context "database performance issue" CONVERSATION MEDIUM None "a" 1
        init).2).2.

(** One chunk whose content is exactly 100 characters long. *)
Definition hundred_chars : Service :=
  (store_context (xs 100) CONVERSATION MEDIUM None "h" 0 init).2.

(** One chunk whose content is 150 characters long. *)
Definition mid_chars : Service :=
  (store_context (xs 150) CONVERSATION HIGH None "m" 0 init).2.

Definition tick (j : nat) : Z := 10 + Z.of_nat j.
End Examples.

(** ** Facts about the Python primitives *)

Section StringFacts.

Lemma length_append (a b : string) :
  String.length (a +:+ b) = (String.length a + String.length b)%nat.
Proof. induction a as [|c a IH]; simpl; [reflexivity | now rewrite IH]. Qed.

Lemma substring_all (n : nat) (s : string) :
  (String.length s <= n)%nat -> String.substring 0 n s = s.
Proof.
  revert n. induction s as [|c s IH]; intros [|n] Hn; simpl in *; try reflexivity; try lia.
  rewrite IH; [reflexivity | lia].
Qed.

Lemma is_empty_true (s : string) : PyStr.is_empty s = true <-> s = EmptyString.
Proof. destruct s; simpl; split; congruence. Qed.

End StringFacts.

Section DictFacts.
Context {V : Type}.
Implicit Types (d : list (string * V)) (k : string).

Lemma get_set_eq k (v : V) d : Dict.get k (Dict.set k v d) = Some v.
Proof.
  induction d as [|[k' v'] d IH]; simpl.
  - now rewrite String.eqb_refl.
  - destruct (String.eqb k k') eqn:E; simpl; rewrite E; [reflexivity | exact IH].
Qed.

Lemma get_set_ne k k' (v : V) d :
  k <> k' -> Dict.get k (Dict.set k' v d) = Dict.get k d.
Proof.
  intros Hne. induction d as [|[k0 v0] d IH]; simpl.
  - destruct (String.eqb_spec k k'); [contradiction | reflexivity].
  - destruct (String.eqb_spec k' k0) as [->|Hk]; simpl.
    + destruct (String.eqb_spec k k0); [contradiction | reflexivity].
    + destruct (String.eqb k k0); [reflexivity | exact IH].
Qed.

Lemma get_update_eq (f : V -> V) k d :
  Dict.get k (Dict.update f k d) = f <$> Dict.get k d.
Proof.
  induction d as [|[k' v'] d IH]; simpl; [reflexivity|].
  destruct (String.eqb k k') eqn:E; simpl; rewrite E; [reflexivity | exact IH].
Qed.

Lemma get_update_ne (f : V -> V) k k' d :
  k <> k' -> Dict.get k (Dict.update f k' d) = Dict.get k d.
Proof.
  intros Hne. induction d as [|[k0 v0] d IH]; simpl; [reflexivity|].
  destruct (String.eqb_spec k' k0) as [->|Hk]; simpl.
  - destruct (String.eqb_spec k k0); [contradiction | reflexivity].
  - destruct (String.eqb k k0); [reflexivity | exact IH].
Qed.

Lemma get_del_ne k k' d :
  k <> k' -> Dict.get k (Dict.del k' d) = Dict.get k d.
Proof.
  intros Hne. induction d as [|[k0 v0] d IH]; simpl; [reflexivity|].
  destruct (String.eqb_spec k' k0) as [->|Hk]; simpl.
  - destruct (String.eqb_spec k k0); [contradiction | reflexivity].
  - destruct (String.eqb k k0); [reflexivity | exact IH].
Qed.

Lemma get_None_keys k d : Dict.get k d = None <-> k ∉ Dict.keys d.
Proof.
  induction d as [|[k0 v0] d IH]; simpl.
  - split; [intros _; apply not_elem_of_nil | reflexivity].
  - rewrite not_elem_of_cons. destruct (String.eqb_spec k k0) as [->|Hk].
    + split; [discriminate | intros [? _]; contradiction].
    + rewrite IH. tauto.
Qed.

Lemma get_del_eq k d : Dict.wf d -> Dict.get k (Dict.del k d) = None.
Proof.
  unfold Dict.wf. induction d as [|[k0 v0] d IH]; simpl; intros Hwf; [reflexivity|].
  apply NoDup_cons in Hwf as [Hk0 Hwf].
  destruct (String.eqb_spec k k0) as [->|Hk]; simpl.
  - now apply get_None_keys.
  - destruct (String.eqb_spec k k0); [contradiction | auto].
Qed.

Lemma get_Some_elem k (v : V) d : Dict.get k d = Some v -> (k, v) ∈ d.
Proof.
  induction d as [|[k0 v0] d IH]; simpl; [discriminate|].
  destruct (String.eqb_spec k k0) as [->|Hk].
  - intros [= ->]. apply list_elem_of_here.
  - intros H. apply list_elem_of_further. auto.
Qed.

Lemma elem_get_Some k (v : V) d : Dict.wf d -> (k, v) ∈ d -> Dict.get k d = Some v.
Proof.
  unfold Dict.wf. induction d as [|[k0 v0] d IH]; simpl; intros Hwf Hin.
  - now apply elem_of_nil in Hin.
  - apply NoDup_cons in Hwf as [Hk0 Hwf].
    apply elem_of_cons in Hin as [[= -> ->]|Hin].
    + now rewrite String.eqb_refl.
    + destruct (String.eqb_spec k k0) as [->|Hk]; [|auto].
      exfalso. apply Hk0. apply list_elem_of_fmap. exists (k0, v). auto.
Qed.

Lemma keys_update (f : V -> V) k d : Dict.keys (Dict.update f k d) = Dict.keys d.
Proof.
  induction d as [|[k0 v0] d IH]; simpl; [reflexivity|].
  destruct (String.eqb k k0); simpl; [reflexivity | now rewrite IH].
Qed.

Lemma keys_update_at (f : V -> V) i d : Dict.keys (Dict.update_at f i d) = Dict.keys d.
Proof.
  unfold Dict.update_at, Dict.keys. revert i.
  induction d as [|[k0 v0] d IH]; intros [|i]; simpl; try reflexivity.
  f_equal. apply IH.
Qed.

End DictFacts.

(** ** The curator *)

Section CuratorFacts.
Import Curator.

Lemma estimate_tokens_nonempty (text : string) :
  text <> EmptyString ->
  estimate_tokens text = Z.max 1 (Z.of_nat (String.length text) / 4).
Proof. destruct text; [congruence | reflexivity]. Qed.

Lemma sum_tokens_cons (r : Message) (rows : list Message) :
  sum_tokens (r :: rows) = estimate_tokens (content_or_empty r) + sum_tokens rows.
Proof. reflexivity. Qed.

(** C8, as the code has it: a non-empty text is estimated at
    [max(1, floor(len/4))] tokens and so adds at least 1 to the total of
    its conversation; the empty text is estimated at 0 and adds
    nothing. *)
Theorem estimate_tokens_characterised (text : string) (r : Message) (rows : list Message) :
  (text <> EmptyString ->
     estimate_tokens text = Spec.token_estimate text /\ 1 <= estimate_tokens text) /\
  estimate_tokens EmptyString = 0 /\
  (content_or_empty r <> EmptyString -> sum_tokens rows + 1 <= sum_tokens (r :: rows)) /\
  (content_or_empty r = EmptyString -> sum_tokens (r :: rows) = sum_tokens rows).
Proof.
  repeat split.
  - now apply estimate_tokens_nonempty.
  - rewrite estimate_tokens_nonempty by assumption. lia.
  - intros Hne. rewrite sum_tokens_cons, estimate_tokens_nonempty by assumption. lia.
  - intros He. rewrite sum_tokens_cons, He. reflexivity.
Qed.

Lemma estimate_tokens_characterised_witness :
  estimate_tokens "abcdefghij" = 2
  /\ sum_tokens [] + 1
     <= sum_tokens [mkMessage "m1" (Some "c1") "user" (Some "hello") 0].
Proof.
  pose proof (estimate_tokens_characterised "abcdefghij"
                (mkMessage "m1" (Some "c1") "user" (Some "hello") 0) [])
    as (Htext & _ & Hrow & _).
  split.
  - apply Htext. discriminate.
  - apply Hrow. discriminate.
Defined.

(** C8 as stated fails on the empty text: the estimate is 0, not
    [max(1, 0) = 1]. *)
Lemma estimate_tokens_empty_is_zero :
  estimate_tokens EmptyString <> Spec.token_estimate EmptyString
  /\ ~ 1 <= estimate_tokens EmptyString.
Proof. split; vm_compute; congruence. Qed.

Lemma load_messages_same (cid : string) (db db' : Db) :
  messages db' = messages db -> load_messages cid db' = load_messages cid db.
Proof. unfold load_messages. now intros ->. Qed.

Lemma over_message_budget (cid new_id : string) (now : Z) (db : Db) :
  CONTEXT_BUDGET_MESSAGES default_budgets < Z.of_nat (length (load_messages cid db)) ->
  curate_conversation default_budgets cid new_id now db =
    (mkCurateResponse true (Some new_id)
       (Z.of_nat (length (load_messages cid db)))
       (sum_tokens (load_messages cid db)) 50 8000,
     mkDb (messages db)
       (summaries db ++
          [mkSummary new_id (Some cid)
             (summarize_messages (to_summarize (load_messages cid db)) 800)
             "on_event" "curator_v1" now])).
Proof.
  intros Hn. unfold curate_conversation.
  destruct (Z.leb_spec (Z.of_nat (length (load_messages cid db)))
              (CONTEXT_BUDGET_MESSAGES default_budgets)) as [Hle|_]; [lia|].
  reflexivity.
Qed.

(** C1, as the code has it: on a conversation of 100 messages the first
    call hands exactly the oldest 60 messages to the summarizer and
    appends one summary record; a second call with no message appended in
    between is over budget again and appends a second record derived from
    the same 60 messages.  The message table is never changed. *)
Theorem curate_keeps_no_watermark (cid id1 id2 : string) (t1 t2 : Z) (db : Db) :
  length (load_messages cid db) = 100%nat ->
  let rows := load_messages cid db in
  let text := summarize_messages (firstn 60 rows) 800 in
  let first := curate_conversation default_budgets cid id1 t1 db in
  let second := curate_conversation default_budgets cid id2 t2 first.2 in
  to_summarize rows = firstn 60 rows
  /\ summarized first.1 = true
  /\ created_summary_id first.1 = Some id1
  /\ messages first.2 = messages db
  /\ summaries first.2 =
       summaries db ++ [mkSummary id1 (Some cid) text "on_event" "curator_v1" t1]
  /\ summarized second.1 = true
  /\ created_summary_id second.1 = Some id2
  /\ messages second.2 = messages db
  /\ summaries second.2 =
       summaries db ++ [mkSummary id1 (Some cid) text "on_event" "curator_v1" t1;
                        mkSummary id2 (Some cid) text "on_event" "curator_v1" t2].
Proof.
  intros Hlen. cbv zeta.
  assert (Hcut : to_summarize (load_messages cid db) = firstn 60 (load_messages cid db)).
  { unfold to_summarize. rewrite Hlen. reflexivity. }
  rewrite (over_message_budget cid id1 t1 db) by (rewrite Hlen; simpl; lia).
  cbn [fst snd].
  set (db1 := mkDb _ _).
  assert (Hrows : load_messages cid db1 = load_messages cid db)
    by (apply load_messages_same; reflexivity).
  rewrite (over_message_budget cid id2 t2 db1) by (rewrite Hrows, Hlen; simpl; lia).
  rewrite Hrows. subst db1. rewrite !Hcut.
  cbn [fst snd messages summaries summarized created_summary_id].
  rewrite <- app_assoc. repeat split; reflexivity.
Qed.

Lemma curate_keeps_no_watermark_witness :
  let first := curate_conversation default_budgets "c1" "s1" 200 Examples.long_conversation in
  let second := curate_conversation default_budgets "c1" "s2" 201 first.2 in
  length (summaries first.2) = 1%nat /\ length (summaries second.2) = 2%nat.
Proof.
  pose proof (curate_keeps_no_watermark "c1" "s1" "s2" 200 201
                Examples.long_conversation ltac:(vm_compute; reflexivity)) as H.
  cbv zeta in H. destruct H as (_ & _ & _ & _ & H1 & _ & _ & _ & H2).
  cbv zeta. rewrite H1, H2. split; reflexivity.
Defined.

(** C1 as stated fails: on a conversation of 100 messages the second
    immediate call archives again and changes the summary table. *)
Lemma curate_second_call_archives_again :
  let first := curate_conversation default_budgets "c1" "s1" 200 Examples.long_conversation in
  let second := curate_conversation default_budgets "c1" "s2" 201 first.2 in
  length (load_messages "c1" Examples.long_conversation) = 100%nat
  /\ messages first.2 = messages Examples.long_conversation
  /\ summarized second.1 = true
  /\ summaries second.2 <> summaries first.2
  /\ map summary (summaries second.2) =
       [summarize_messages (firstn 60 (load_messages "c1" Examples.long_conversation)) 800;
        summarize_messages (firstn 60 (load_messages "c1" Examples.long_conversation)) 800].
Proof.
  cbv zeta. repeat split; try (vm_compute; reflexivity).
  intros H. apply (f_equal length) in H. vm_compute in H. discriminate H.
Qed.

End CuratorFacts.

(** ** The context store: scoring, compression, summaries *)

Section StoreFacts.
Import ContextService.

Lemma stored_chunk_lookup content ty pr meta cid now s :
  Dict.get cid (context_chunks (store_context content ty pr meta cid now s).2) =
    Some (mkChunk cid content ty pr now now 1
            (_calculate_importance_score content ty pr) false None
            (metadata_or_empty meta)).
Proof. unfold store_context. simpl. apply get_set_eq. Qed.

Lemma priority_weight_agrees (pr : ContextPriority) :
  (priority_value pr # 4 == Spec.priority_weight pr)%Q.
Proof. destruct pr; reflexivity. Qed.

Lemma type_weight_agrees (ty : ContextType) :
  (type_score ty == Spec.type_weight ty)%Q.
Proof. destruct ty; reflexivity. Qed.

Lemma priority_weight_nonneg (pr : ContextPriority) : (0 <= Spec.priority_weight pr)%Q.
Proof. destruct pr; discriminate. Qed.

Lemma type_weight_nonneg (ty : ContextType) : (0 <= Spec.type_weight ty)%Q.
Proof. destruct ty; discriminate. Qed.

Lemma length_score_nonneg (n : nat) : (0 <= Qmin (Z.of_nat n # 1000) 1)%Q.
Proof.
  apply Q.min_glb; [|discriminate].
  unfold Qle. simpl. lia.
Qed.

Lemma Qadd_nonneg (a b : Q) : (0 <= a -> 0 <= b -> 0 <= a + b)%Q.
Proof. intros Ha Hb. change (0 + 0 <= a + b)%Q. now apply Qplus_le_compat. Qed.

Lemma importance_agrees content ty pr :
  (_calculate_importance_score content ty pr == Spec.importance content ty pr)%Q.
Proof.
  unfold _calculate_importance_score, Spec.importance, Spec.clamp.
  rewrite priority_weight_agrees, type_weight_agrees.
  symmetry. apply Q.max_r. apply Q.min_glb; [|discriminate].
  pose proof (priority_weight_nonneg pr) as Hp.
  pose proof (type_weight_nonneg ty) as Ht.
  pose proof (length_score_nonneg (String.length content)) as Hl.
  assert (H4 : (0 <= 4 # 10)%Q) by discriminate.
  assert (H3 : (0 <= 3 # 10)%Q) by discriminate.
  pose proof (Qmult_le_0_compat _ _ Hp H4).
  pose proof (Qmult_le_0_compat _ _ Hl H3).
  pose proof (Qmult_le_0_compat _ _ Ht H3).
  repeat apply Qadd_nonneg; assumption.
Qed.

(** C6: the chunk that Store files carries the importance score of the
    specification's formula, for every content, type and priority; for a
    content of 50 characters of type conversation and priority medium
    the score is 0.455. *)
Theorem store_importance_score content ty pr meta cid now s :
  exists chunk,
    Dict.get cid (context_chunks (store_context content ty pr meta cid now s).2) = Some chunk
    /\ (importance_score chunk == Spec.importance content ty pr)%Q
    /\ (String.length content = 50%nat -> ty = CONVERSATION -> pr = MEDIUM ->
        (importance_score chunk == 455 # 1000)%Q).
Proof.
  eexists. split; [apply stored_chunk_lookup|]. simpl. split.
  - apply importance_agrees.
  - intros Hlen -> ->. unfold _calculate_importance_score. rewrite Hlen. reflexivity.
Qed.

Lemma store_importance_score_witness :
  exists chunk,
    Dict.get "c" (context_chunks
      (store_context (Examples.xs 50) CONVERSATION MEDIUM None "c" 7 init).2) = Some chunk
    /\ (importance_score chunk == 455 # 1000)%Q.
Proof.
  destruct (store_importance_score (Examples.xs 50) CONVERSATION MEDIUM None "c" 7 init)
    as (chunk & Hget & _ & H).
  exists chunk. split; [exact Hget|].
  apply H; reflexivity.
Defined.

Lemma compress_context_hit cid chunk s :
  Dict.get cid (context_chunks s) = Some chunk ->
  compressed chunk = false ->
  (compression_threshold <= String.length (content chunk))%nat ->
  compress_context cid s =
    (true, mkService (Dict.update compress_chunk cid (context_chunks s))
             (context_summaries s)).
Proof.
  intros Hget Hc Hlen. unfold compress_context. rewrite Hget, Hc. simpl.
  destruct (Nat.ltb_spec (String.length (content chunk)) compression_threshold);
    [lia | reflexivity].
Qed.

Lemma compress_context_skip cid chunk s :
  Dict.get cid (context_chunks s) = Some chunk ->
  compressed chunk = true
  \/ (String.length (content chunk) < compression_threshold)%nat ->
  compress_context cid s = (false, s).
Proof.
  intros Hget H. unfold compress_context. rewrite Hget.
  destruct H as [->|Hlt]; [reflexivity|].
  destruct (Nat.ltb_spec (String.length (content chunk)) compression_threshold); [|lia].
  now rewrite orb_true_r.
Qed.

Lemma compress_context_miss cid s :
  Dict.get cid (context_chunks s) = None -> compress_context cid s = (false, s).
Proof. intros Hget. unfold compress_context. now rewrite Hget. Qed.

(** C7: a second Compress on the same id returns false and leaves the
    store exactly as the first call left it. *)
Theorem compress_context_idempotent cid s :
  compress_context cid (compress_context cid s).2 = (false, (compress_context cid s).2).
Proof.
  destruct (Dict.get cid (context_chunks s)) as [chunk|] eqn:Hget.
  - destruct (compressed chunk) eqn:Hc.
    + rewrite (compress_context_skip cid chunk s) by auto. simpl.
      apply (compress_context_skip cid chunk); auto.
    + destruct (Nat.ltb_spec (String.length (content chunk)) compression_threshold).
      * rewrite (compress_context_skip cid chunk s) by auto. simpl.
        apply (compress_context_skip cid chunk); auto.
      * rewrite (compress_context_hit cid chunk s) by auto. simpl.
        apply (compress_context_skip cid (compress_chunk chunk)); [|now left].
        simpl. rewrite get_update_eq, Hget. reflexivity.
  - rewrite (compress_context_miss cid s) by assumption. simpl.
    now apply compress_context_miss.
Qed.

(** C9, as the code has it: for a chunk that is not yet compressed and
    whose content length L satisfies 100 < L < 200, Compress returns true
    and the stored content becomes the original content followed by the
    16-character marker, hence strictly longer. *)
Theorem compress_context_lengthens cid chunk s :
  Dict.get cid (context_chunks s) = Some chunk ->
  compressed chunk = false ->
  (100 < String.length (content chunk) < 200)%nat ->
  (compress_context cid s).1 = true
  /\ exists chunk',
       Dict.get cid (context_chunks (compress_context cid s).2) = Some chunk'
       /\ content chunk' = content chunk +:+ "... [compressed]"
       /\ String.length (content chunk') = (String.length (content chunk) + 16)%nat
       /\ (String.length (content chunk) < String.length (content chunk'))%nat.
Proof.
  intros Hget Hc [Hlo Hhi].
  rewrite (compress_context_hit cid chunk s) by (auto; unfold compression_threshold; lia).
  split; [reflexivity|]. exists (compress_chunk chunk). simpl.
  rewrite get_update_eq, Hget. split; [reflexivity|].
  assert (Hcontent : _compress_content (content chunk)
                     = content chunk +:+ "... [compressed]").
  { unfold _compress_content, compression_threshold.
    destruct (Nat.leb_spec (String.length (content chunk)) 100); [lia|].
    destruct (Nat.ltb_spec 400 (String.length (content chunk))); [lia|].
    unfold PyStr.take. rewrite substring_all by lia. reflexivity. }
  rewrite Hcontent, length_append. simpl. repeat split; lia.
Qed.

Lemma compress_context_lengthens_witness :
  (compress_context "m" Examples.mid_chars).1 = true
  /\ exists chunk',
       Dict.get "m" (context_chunks (compress_context "m" Examples.mid_chars).2) = Some chunk'
       /\ String.length (content chunk') = 166%nat.
Proof.
  destruct (compress_context_lengthens "m"
              (mkChunk "m" (Examples.xs 150) CONVERSATION HIGH 0 0 1
                 (_calculate_importance_score (Examples.xs 150) CONVERSATION HIGH)
                 false None [])
              Examples.mid_chars)
    as (Hret & chunk' & Hget & _ & Hlen & _).
  - reflexivity.
  - reflexivity.
  - vm_compute. lia.
  - split; [exact Hret|]. exists chunk'. split; [exact Hget | exact Hlen].
Defined.

(** C9 as stated fails twice.  A chunk that is already compressed and
    whose content has 166 characters is refused: Compress returns false.
    And on a fresh chunk of exactly 100 characters Compress returns true,
    yet the content is stored back unchanged, with no marker and no
    longer than before. *)
Lemma compress_context_not_always_longer :
  (exists chunk,
     Dict.get "m" (context_chunks (compress_context "m" Examples.mid_chars).2) = Some chunk
     /\ (100 <= String.length (content chunk) < 200)%nat
     /\ (compress_context "m" (compress_context "m" Examples.mid_chars).2).1 = false)
  /\ (exists chunk chunk',
        Dict.get "h" (context_chunks Examples.hundred_chars) = Some chunk
        /\ compressed chunk = false
        /\ String.length (content chunk) = 100%nat
        /\ (compress_context "h" Examples.hundred_chars).1 = true
        /\ Dict.get "h" (context_chunks (compress_context "h" Examples.hundred_chars).2)
           = Some chunk'
        /\ content chunk' = content chunk
        /\ content chunk' <> content chunk +:+ "... [compressed]"
        /\ ~ (String.length (content chunk) < String.length (content chunk'))%nat).
Proof.
  split.
  - eexists. split; [vm_compute; reflexivity|].
    split; [vm_compute; lia | vm_compute; reflexivity].
  - eexists _, _. split; [reflexivity|]. split; [reflexivity|].
    split; [reflexivity|]. split; [reflexivity|]. split; [vm_compute; reflexivity|].
    split; [reflexivity|]. split.
    + intros H. apply (f_equal String.length) in H. vm_compute in H. discriminate H.
    + vm_compute. lia.
Qed.

Lemma found_chunks_none ids s :
  (forall cid, cid ∈ ids -> Dict.get cid (context_chunks s) = None) ->
  found_chunks ids s = [].
Proof.
  unfold found_chunks. induction ids as [|cid ids IH]; intros H; simpl; [reflexivity|].
  rewrite (H cid) by apply list_elem_of_here.
  apply IH. intros c Hc. apply H. now apply list_elem_of_further.
Qed.

(** C3, as the code has it: Summarize over an id list that names no
    stored chunk (the empty list included) raises nothing; it returns the
    empty string in place of a summary id and creates no ContextSummary
    record. *)
Theorem summarize_contexts_empty_input ids summary_type new_id now s :
  (forall cid, cid ∈ ids -> Dict.get cid (context_chunks s) = None) ->
  summarize_contexts ids summary_type new_id now s = (Ok EmptyString, s).
Proof.
  intros H. unfold summarize_contexts. now rewrite found_chunks_none.
Qed.

Lemma summarize_contexts_empty_input_witness :
  summarize_contexts ["nobody"; "k2"] "general" "sum1" 5 Examples.short_insight
  = (Ok EmptyString, Examples.short_insight).
Proof.
  apply summarize_contexts_empty_input.
  intros cid Hcid.
  apply elem_of_cons in Hcid as [->|Hcid]; [reflexivity|].
  apply elem_of_cons in Hcid as [->|Hcid]; [reflexivity|].
  now apply elem_of_nil in Hcid.
Defined.

(** C3 as stated fails on the empty id list: the call is answered with a
    normal result, the empty string, not with an InvalidArgument
    error. *)
Lemma summarize_contexts_empty_is_not_an_error :
  (summarize_contexts [] "general" "sum1" 5 init).1 = Ok EmptyString
  /\ (summarize_contexts [] "general" "sum1" 5 init).1 <> Raise InvalidArgument.
Proof. split; [reflexivity | discriminate]. Qed.

End StoreFacts.

(** ** The decay sweep *)

Section SweepFacts.
Import ContextService.

Lemma keys_del_sublist {V} k (d : list (string * V)) :
  sublist (Dict.keys (Dict.del k d)) (Dict.keys d).
Proof.
  induction d as [|[k0 v0] d IH]; simpl; [constructor|].
  destruct (String.eqb k k0); simpl.
  - now apply sublist_cons.
  - now apply sublist_skip.
Qed.

Lemma wf_del {V} k (d : list (string * V)) : Dict.wf d -> Dict.wf (Dict.del k d).
Proof. unfold Dict.wf. intros H. eapply sublist_NoDup; [exact H | apply keys_del_sublist]. Qed.

Lemma compress_context_keys cid s :
  Dict.keys (context_chunks (compress_context cid s).2) = Dict.keys (context_chunks s).
Proof.
  unfold compress_context.
  destruct (Dict.get cid (context_chunks s)) as [c|]; [|reflexivity].
  destruct (compressed c || _); [reflexivity|]. simpl. apply keys_update.
Qed.

Lemma compress_context_get_ne k cid s :
  k <> cid ->
  Dict.get k (context_chunks (compress_context cid s).2) = Dict.get k (context_chunks s).
Proof.
  intros Hne. unfold compress_context.
  destruct (Dict.get cid (context_chunks s)) as [c|]; [|reflexivity].
  destruct (compressed c || _); [reflexivity|]. simpl. now apply get_update_ne.
Qed.

Lemma decay_step_wf now acc item :
  Dict.wf (context_chunks acc.1) ->
  Dict.wf (context_chunks (decay_step now acc item).1).
Proof.
  destruct acc as [s n], item as [cid c]. simpl. intros Hwf.
  destruct (_ <? _); [|exact Hwf].
  destruct (Qltb _ _); simpl.
  - now apply wf_del.
  - unfold Dict.wf. now rewrite compress_context_keys.
Qed.

Lemma decay_step_other now acc cid c k :
  k <> cid ->
  Dict.get k (context_chunks (decay_step now acc (cid, c)).1)
  = Dict.get k (context_chunks acc.1).
Proof.
  destruct acc as [s n]. simpl. intros Hne.
  destruct (_ <? _); [|reflexivity].
  destruct (Qltb _ _); simpl.
  - now apply get_del_ne.
  - now apply compress_context_get_ne.
Qed.

Lemma decay_step_at now acc cid c :
  Dict.wf (context_chunks acc.1) ->
  days decay_threshold < now - last_accessed c ->
  Dict.get cid (context_chunks (decay_step now acc (cid, c)).1)
  = decayed_entry c (Dict.get cid (context_chunks acc.1)).
Proof.
  destruct acc as [s n]. simpl. intros Hwf Hstale.
  destruct (Z.ltb_spec (days decay_threshold) (now - last_accessed c)); [|lia].
  unfold decayed_entry. destruct (Qltb _ _); simpl.
  - now apply get_del_eq.
  - unfold compress_context.
    destruct (Dict.get cid (context_chunks s)) as [c0|] eqn:Hget; [|exact Hget].
    destruct (compressed c0 || _); simpl; [exact Hget|].
    now rewrite get_update_eq, Hget.
Qed.

Lemma decay_fold_other now items : forall acc k,
  k ∉ Dict.keys items ->
  Dict.get k (context_chunks (foldl (decay_step now) acc items).1)
  = Dict.get k (context_chunks acc.1).
Proof.
  induction items as [|[cid c] items IH]; intros acc k Hk; simpl; [reflexivity|].
  simpl in Hk. apply not_elem_of_cons in Hk as [Hne Hk].
  rewrite IH by exact Hk. now apply decay_step_other.
Qed.

Lemma decay_fold_at now items : forall acc k c,
  Dict.wf items ->
  Dict.wf (context_chunks acc.1) ->
  (k, c) ∈ items ->
  days decay_threshold < now - last_accessed c ->
  Dict.get k (context_chunks (foldl (decay_step now) acc items).1)
  = decayed_entry c (Dict.get k (context_chunks acc.1)).
Proof.
  unfold Dict.wf at 1.
  induction items as [|[cid c0] items IH]; intros acc k c Hnd Hwf Hin Hstale; simpl.
  - now apply elem_of_nil in Hin.
  - simpl in Hnd. apply NoDup_cons in Hnd as [Hcid Hnd].
    apply elem_of_cons in Hin as [[= -> ->]|Hin].
    + rewrite decay_fold_other by exact Hcid. now apply decay_step_at.
    + assert (k <> cid) as Hne.
      { intros ->. apply Hcid. apply list_elem_of_fmap. exists (cid, c). auto. }
      rewrite (IH _ k c Hnd (decay_step_wf now acc (cid, c0) Hwf) Hin Hstale).
      now rewrite decay_step_other.
Qed.

Lemma prevent_decay_state now s :
  (prevent_decay now s).2 = (foldl (decay_step now) (s, 0) (context_chunks s)).1.
Proof. unfold prevent_decay. now destruct (foldl _ _ _). Qed.

Lemma prevent_decay_entry now s cid chunk :
  Dict.wf (context_chunks s) ->
  Dict.get cid (context_chunks s) = Some chunk ->
  days decay_threshold < now - last_accessed chunk ->
  Dict.get cid (context_chunks (prevent_decay now s).2) = decayed_entry chunk (Some chunk).
Proof.
  intros Hwf Hget Hstale. rewrite prevent_decay_state.
  rewrite (decay_fold_at now (context_chunks s) (s, 0) cid chunk Hwf Hwf
             (get_Some_elem _ _ _ Hget) Hstale).
  simpl. now rewrite Hget.
Qed.

Lemma Qltb_lt (x y : Q) : Qltb x y = true <-> (x < y)%Q.
Proof.
  unfold Qltb. rewrite Qlt_alt. destruct (x ?= y)%Q; split; congruence.
Qed.

Lemma Qltb_ge (x y : Q) : Qltb x y = false <-> (y <= x)%Q.
Proof.
  rewrite <- not_true_iff_false, Qltb_lt. split; [apply Qnot_lt_le | apply Qle_not_lt].
Qed.

(** C2, as the code has it: for a chunk last accessed more than 30 days
    before the sweep, (a) an importance score below 0.5 removes it from
    the store; (b) with a score of at least 0.5 it stays in the store,
    and it comes out compressed with a non-null summary when it was
    uncompressed with a content of at least 100 characters; a chunk that
    was already compressed, or whose content is shorter than 100
    characters, is left exactly as it was. *)
Theorem prevent_decay_stale_chunk now s cid chunk :
  Dict.wf (context_chunks s) ->
  Dict.get cid (context_chunks s) = Some chunk ->
  days decay_threshold < now - last_accessed chunk ->
  ((importance_score chunk < 1 # 2)%Q ->
     Dict.get cid (context_chunks (prevent_decay now s).2) = None)
  /\ ((1 # 2 <= importance_score chunk)%Q ->
        (compressed chunk = false ->
         (100 <= String.length (content chunk))%nat ->
         exists chunk',
           Dict.get cid (context_chunks (prevent_decay now s).2) = Some chunk'
           /\ compressed chunk' = true
           /\ summary chunk' = Some (_generate_summary (content chunk)))
        /\ (compressed chunk = true \/ (String.length (content chunk) < 100)%nat ->
            Dict.get cid (context_chunks (prevent_decay now s).2) = Some chunk)).
Proof.
  intros Hwf Hget Hstale.
  rewrite (prevent_decay_entry now s cid chunk Hwf Hget Hstale).
  unfold decayed_entry. split.
  - intros Hlow. apply Qltb_lt in Hlow. now rewrite Hlow.
  - intros Hhigh. apply Qltb_ge in Hhigh. rewrite Hhigh. split.
    + intros Hfresh Hlen. rewrite Hfresh. simpl.
      destruct (Nat.ltb_spec (String.length (content chunk)) compression_threshold)
        as [Hlt|_].
      * unfold compression_threshold in Hlt. lia.
      * exists (compress_chunk chunk). repeat split; reflexivity.
    + intros [->|Hlt]; [reflexivity|].
      destruct (Nat.ltb_spec (String.length (content chunk)) compression_threshold)
        as [_|Hge].
      * now rewrite orb_true_r.
      * unfold compression_threshold in Hge. lia.
Qed.

Lemma prevent_decay_stale_chunk_witness :
  exists chunk,
    Dict.get "k1" (context_chunks Examples.short_insight) = Some chunk
    /\ Dict.get "k1" (context_chunks (prevent_decay (days 31) Examples.short_insight).2)
       = Some chunk.
Proof.
  pose (chunk := mkChunk "k1" "short note" MEDITATION_INSIGHT CRITICAL 0 0 1
                   (_calculate_importance_score "short note" MEDITATION_INSIGHT CRITICAL)
                   false None []).
  exists chunk. split; [reflexivity|].
  refine (proj2 (proj2 (prevent_decay_stale_chunk (days 31) Examples.short_insight
                          "k1" chunk _ _ _) _) _).
  - apply NoDup_singleton.
  - reflexivity.
  - vm_compute. reflexivity.
  - vm_compute. discriminate.
  - right. vm_compute. lia.
Defined.

(** C2 as stated fails for a stale chunk of importance 0.703 whose
    content has 10 characters: after the sweep it is still in the store,
    but neither compressed nor summarised. *)
Lemma prevent_decay_leaves_short_chunk_uncompressed :
  exists chunk chunk',
    Dict.get "k1" (context_chunks Examples.short_insight) = Some chunk
    /\ days decay_threshold < days 31 - last_accessed chunk
    /\ (1 # 2 <= importance_score chunk)%Q
    /\ Dict.get "k1" (context_chunks (prevent_decay (days 31) Examples.short_insight).2)
       = Some chunk'
    /\ compressed chunk' = false
    /\ summary chunk' = None.
Proof.
  eexists _, _. split; [reflexivity|]. split; [vm_compute; reflexivity|].
  split; [vm_compute; discriminate|]. split; [vm_compute; reflexivity|].
  split; reflexivity.
Qed.

End SweepFacts.

(** ** The compressed/summary invariant *)

Section InvariantFacts.
Import ContextService.
Context {V : Type} (P : V -> Prop).
Implicit Types (d : list (string * V)).

Lemma values_set k v d :
  P v -> Forall P (Dict.values d) -> Forall P (Dict.values (Dict.set k v d)).
Proof.
  intros Hv. induction d as [|[k0 v0] d IH]; simpl; intros Hd.
  - repeat constructor. exact Hv.
  - apply Forall_cons in Hd as [H0 Hd].
    destruct (String.eqb k k0); simpl; constructor; auto.
Qed.

Lemma values_del k d :
  Forall P (Dict.values d) -> Forall P (Dict.values (Dict.del k d)).
Proof.
  induction d as [|[k0 v0] d IH]; simpl; intros Hd; [constructor|].
  apply Forall_cons in Hd as [H0 Hd].
  destruct (String.eqb k k0); simpl; [exact Hd | constructor; auto].
Qed.

Lemma values_update (f : V -> V) k d :
  (forall v, P v -> P (f v)) ->
  Forall P (Dict.values d) -> Forall P (Dict.values (Dict.update f k d)).
Proof.
  intros Hf. induction d as [|[k0 v0] d IH]; simpl; intros Hd; [constructor|].
  apply Forall_cons in Hd as [H0 Hd].
  destruct (String.eqb k k0); simpl; constructor; auto.
Qed.

Lemma values_update_at (f : V -> V) i d :
  (forall v, P v -> P (f v)) ->
  Forall P (Dict.values d) -> Forall P (Dict.values (Dict.update_at f i d)).
Proof.
  intros Hf. unfold Dict.update_at. revert i.
  induction d as [|[k0 v0] d IH]; intros [|i] Hd; simpl; try exact Hd.
  - apply Forall_cons in Hd as [H0 Hd]. constructor; auto.
  - apply Forall_cons in Hd as [H0 Hd]. constructor; [exact H0 | now apply IH].
Qed.

End InvariantFacts.

Section InvariantPreserved.
Import ContextService.

Lemma touch_consistent now c :
  summary_iff_compressed c -> summary_iff_compressed (touch now c).
Proof. exact (fun H => H). Qed.

Lemma compress_chunk_consistent c : summary_iff_compressed (compress_chunk c).
Proof. unfold summary_iff_compressed. simpl. split; [reflexivity | discriminate]. Qed.

Lemma touch_all_consistent clock sel : forall j d,
  Forall summary_iff_compressed (Dict.values d) ->
  Forall summary_iff_compressed (Dict.values (touch_all clock j sel d)).
Proof.
  induction sel as [|i sel IH]; intros j d Hd; simpl; [exact Hd|].
  apply IH. apply values_update_at; [|exact Hd].
  intros c. apply touch_consistent.
Qed.

Lemma compress_context_consistent cid s :
  consistent s -> consistent (compress_context cid s).2.
Proof.
  unfold consistent, compress_context. intros Hs.
  destruct (Dict.get cid (context_chunks s)) as [c|]; [|exact Hs].
  destruct (compressed c || _); [exact Hs|]. simpl.
  apply values_update; [|exact Hs]. intros v _. apply compress_chunk_consistent.
Qed.

Lemma decay_step_consistent now acc item :
  consistent acc.1 -> consistent (decay_step now acc item).1.
Proof.
  destruct acc as [s n], item as [cid c]. simpl. intros Hs.
  destruct (_ <? _); [|exact Hs].
  destruct (Qltb _ _); simpl.
  - unfold consistent. simpl. now apply values_del.
  - now apply compress_context_consistent.
Qed.

Lemma decay_fold_consistent now items : forall acc,
  consistent acc.1 -> consistent (foldl (decay_step now) acc items).1.
Proof.
  induction items as [|item items IH]; intros acc Hacc; simpl; [exact Hacc|].
  apply IH. now apply decay_step_consistent.
Qed.

Lemma reachable_consistent s : reachable s -> consistent s.
Proof.
  induction 1 as [ | s content ty pr meta cid now _ IH
                   | s query type_filter limit clock _ IH
                   | s cid _ IH | s cid _ IH | s now _ IH
                   | s ids summary_type new_id now _ IH ].
  - constructor.
  - unfold consistent. simpl. apply values_set; [|exact IH].
    unfold summary_iff_compressed. simpl. split; [congruence | discriminate].
  - unfold consistent. simpl. now apply touch_all_consistent.
  - now apply compress_context_consistent.
  - unfold delete_context. destruct (Dict.mem _ _); [|exact IH].
    unfold consistent. simpl. now apply values_del.
  - rewrite prevent_decay_state. now apply decay_fold_consistent.
  - unfold summarize_contexts. destruct (found_chunks ids s); exact IH.
Qed.

(** C4: in every store reachable from the fresh service by Store,
    Retrieve, Compress, Delete, Sweep (and Summarize), every chunk has a
    summary exactly when it is marked compressed. *)
Theorem summary_iff_compressed_invariant s :
  reachable s ->
  forall cid chunk,
    Dict.get cid (context_chunks s) = Some chunk ->
    (summary chunk <> None <-> compressed chunk = true).
Proof.
  intros Hreach cid chunk Hget.
  pose proof (reachable_consistent s Hreach) as Hs.
  unfold consistent in Hs. rewrite Forall_forall in Hs.
  apply Hs. apply get_Some_elem in Hget.
  unfold Dict.values. apply list_elem_of_fmap. exists (cid, chunk). auto.
Qed.

Lemma summary_iff_compressed_invariant_witness :
  exists chunk,
    Dict.get "m" (context_chunks
      (prevent_decay (days 31) (compress_context "m" Examples.mid_chars).2).2) = Some chunk
    /\ (summary chunk <> None <-> compressed chunk = true).
Proof.
  eexists. split; [vm_compute; reflexivity|].
  apply (summary_iff_compressed_invariant
           (prevent_decay (days 31) (compress_context "m" Examples.mid_chars).2).2)
    with (cid := "m").
  - apply reach_sweep, reach_compress. unfold Examples.mid_chars.
    apply reach_store, reach_init.
  - vm_compute. reflexivity.
Defined.

End InvariantPreserved.

(** ** The stable sort *)

Section StableSortFacts.
Context {A : Type} (before : A -> A -> bool).

Lemma insert_sorted_perm (x : A) (l : list A) : insert_sorted before x l ≡ₚ x :: l.
Proof.
  induction l as [|y l IH]; simpl; [reflexivity|].
  destruct (before y x); [|reflexivity].
  rewrite IH. apply Permutation_swap.
Qed.

Lemma stable_sort_perm (l : list A) : stable_sort before l ≡ₚ l.
Proof.
  induction l as [|x l IH]; simpl; [reflexivity|].
  rewrite insert_sorted_perm. now rewrite IH.
Qed.

(** [E] relates an element to those that follow it in the input; [R] is
    the order the output must respect. *)
Context (R E : A -> A -> Prop).
Hypothesis before_R : forall x y, before y x = true -> R y x.
Hypothesis earlier_R : forall x y, E x y -> before y x = false -> R x y.

Lemma insert_sorted_hd (x y : A) (l : list A) :
  R y x -> HdRel R y l -> HdRel R y (insert_sorted before x l).
Proof.
  intros Hyx Hl. destruct l as [|z l]; simpl; [now constructor|].
  destruct (before z x); constructor; [|exact Hyx].
  now inversion Hl.
Qed.

Lemma insert_sorted_Sorted (x : A) (l : list A) :
  Forall (E x) l -> Sorted R l -> Sorted R (insert_sorted before x l).
Proof.
  induction l as [|y l IH]; simpl; intros HE Hs.
  - repeat constructor.
  - apply Forall_cons in HE as [Hxy HE].
    apply Sorted_inv in Hs as [Hs Hhd].
    destruct (before y x) eqn:Hb.
    + constructor; [now apply IH|].
      apply insert_sorted_hd; [now apply before_R | exact Hhd].
    + constructor; [now constructor|].
      constructor. now apply earlier_R.
Qed.

Lemma stable_sort_Sorted (l : list A) :
  StronglySorted E l -> Sorted R (stable_sort before l).
Proof.
  induction l as [|x l IH]; simpl; intros Hl; [constructor|].
  apply StronglySorted_inv in Hl as [Hl HE].
  apply insert_sorted_Sorted; [|now apply IH].
  eapply Permutation_Forall; [|exact HE].
  symmetry. apply stable_sort_perm.
Qed.

End StableSortFacts.

(** ** Retrieval *)

Section RetrieveFacts.
Import ContextService.
Implicit Types (d : list (string * ContextChunk)) (sel : list nat).

Lemma relevant_from_cons query type_filter i k c d :
  relevant_from query type_filter i ((k, c) :: d) =
    (if type_matches type_filter c
        && Qltb (3 # 10) (_calculate_relevance_score query (content c))
     then [(i, _calculate_relevance_score query (content c))] else [])
    ++ relevant_from query type_filter (S i) d.
Proof.
  simpl. destruct (type_matches type_filter c); [|reflexivity].
  destruct (Qltb _ _); reflexivity.
Qed.

Lemma relevant_from_elem query type_filter d : forall i p r,
  (p, r) ∈ relevant_from query type_filter i d <->
  exists k c,
    (i <= p)%nat
    /\ d !! (p - i)%nat = Some (k, c)
    /\ type_matches type_filter c = true
    /\ r = _calculate_relevance_score query (content c)
    /\ (3 # 10 < r)%Q.
Proof.
  induction d as [|[k0 c0] d IH]; intros i p r.
  - simpl. split; [intros H; now apply elem_of_nil in H|].
    intros (k & c & _ & H & _). discriminate H.
  - rewrite relevant_from_cons, elem_of_app, IH. split.
    + intros [Hhd|(k & c & Hle & Hlk & Hty & Hr & Hth)].
      * destruct (type_matches type_filter c0) eqn:Hty; simpl in Hhd;
          [|now apply elem_of_nil in Hhd].
        destruct (Qltb _ _) eqn:Hth; [|now apply elem_of_nil in Hhd].
        apply list_elem_of_singleton in Hhd as [= -> ->].
        exists k0, c0. rewrite Nat.sub_diag. apply Qltb_lt in Hth. auto.
      * exists k, c. split; [lia|]. split; [|auto].
        replace (p - i)%nat with (S (p - S i)) by lia. exact Hlk.
    + intros (k & c & Hle & Hlk & Hty & Hr & Hth).
      destruct (decide (p = i)) as [->|Hne].
      * left. rewrite Nat.sub_diag in Hlk. simpl in Hlk. injection Hlk as -> ->.
        rewrite Hty. apply Qltb_lt in Hth. rewrite <- Hr, Hth. simpl.
        rewrite Hr. apply list_elem_of_here.
      * right. exists k, c. split; [lia|]. split; [|auto].
        replace (p - i)%nat with (S (p - S i)) in Hlk by lia. exact Hlk.
Qed.

Lemma relevant_from_sorted query type_filter d : forall i,
  StronglySorted earlier (relevant_from query type_filter i d).
Proof.
  induction d as [|[k0 c0] d IH]; intros i; [constructor|].
  rewrite relevant_from_cons.
  destruct (_ && _); simpl; [|apply IH].
  constructor; [apply IH|].
  apply Forall_forall. intros [p r] Hin.
  apply relevant_from_elem in Hin as (k & c & Hle & _).
  unfold earlier. simpl. lia.
Qed.

Lemma earlier_NoDup (l : list (nat * Q)) : StronglySorted earlier l -> NoDup l.*1.
Proof.
  induction 1 as [|a l Hl IH Ha]; simpl; constructor; [|exact IH].
  intros Hin. apply list_elem_of_fmap in Hin as (b & Hab & Hb).
  rewrite Forall_forall in Ha. specialize (Ha b Hb). unfold earlier in Ha. lia.
Qed.

Lemma NoDup_take {A} (n : nat) (l : list A) : NoDup l -> NoDup (firstn n l).
Proof. intros H. eapply sublist_NoDup; [exact H | apply sublist_take]. Qed.

Lemma slice_to_sublist {A} (limit : Z) (l : list A) : sublist (slice_to limit l) l.
Proof. unfold slice_to. destruct (0 <=? limit); apply sublist_take. Qed.

Lemma ranked_perm query type_filter s :
  ranked query type_filter s ≡ₚ relevant_chunks query type_filter s.
Proof. apply stable_sort_perm. Qed.

Lemma higher_score_rank (x y : nat * Q) : higher_score y x = true -> rank_order y x.
Proof. unfold higher_score. intros H. apply Qltb_lt in H. now left. Qed.

Lemma earlier_rank (x y : nat * Q) :
  earlier x y -> higher_score y x = false -> rank_order x y.
Proof.
  unfold higher_score, earlier, rank_order. intros He H. apply Qltb_ge in H.
  apply Qle_lt_or_eq in H as [Hlt|Heq]; [now left | right].
  split; [now symmetry | exact He].
Qed.

Lemma ranked_sorted query type_filter s :
  Sorted rank_order (ranked query type_filter s).
Proof.
  apply (stable_sort_Sorted higher_score rank_order earlier).
  - apply higher_score_rank.
  - apply earlier_rank.
  - apply relevant_from_sorted.
Qed.

Lemma relevant_chunks_candidates query type_filter s p :
  p ∈ relevant_chunks query type_filter s <-> is_candidate query type_filter s p.
Proof.
  destruct p as [p r]. unfold relevant_chunks, is_candidate.
  rewrite relevant_from_elem. simpl. rewrite Nat.sub_0_r.
  split; intros (k & c & H); exists k, c; intuition lia.
Qed.

Lemma selected_NoDup query type_filter limit s :
  NoDup (selected query type_filter limit s).
Proof.
  unfold selected.
  eapply sublist_NoDup; [|apply fmap_sublist, slice_to_sublist].
  rewrite ranked_perm. apply earlier_NoDup, relevant_from_sorted.
Qed.

Lemma selected_in_store query type_filter limit s i :
  i ∈ selected query type_filter limit s -> is_Some (context_chunks s !! i).
Proof.
  unfold selected. intros Hin.
  apply list_elem_of_fmap in Hin as ([p r] & -> & Hin).
  eapply elem_of_sublist in Hin; [|apply slice_to_sublist].
  rewrite ranked_perm in Hin.
  apply relevant_chunks_candidates in Hin as (k & c & Hlk & _).
  simpl in *. eauto.
Qed.

Lemma touch_all_keys clock sel : forall j d,
  Dict.keys (touch_all clock j sel d) = Dict.keys d.
Proof.
  induction sel as [|i sel IH]; intros j d; simpl; [reflexivity|].
  rewrite IH. apply keys_update_at.
Qed.

Lemma touch_all_frame clock sel : forall j d i,
  i ∉ sel -> touch_all clock j sel d !! i = d !! i.
Proof.
  induction sel as [|i0 sel IH]; intros j d i Hi; simpl; [reflexivity|].
  apply not_elem_of_cons in Hi as [Hne Hi].
  rewrite IH by exact Hi. unfold Dict.update_at.
  apply list_lookup_alter_ne. congruence.
Qed.

Lemma touch_all_hit clock sel : forall j d m i,
  NoDup sel ->
  sel !! m = Some i ->
  touch_all clock j sel d !! i
  = (fun e => (e.1, touch (clock (j + m)%nat) e.2)) <$> d !! i.
Proof.
  induction sel as [|i0 sel IH]; intros j d m i Hnd Hm; [discriminate Hm|].
  apply NoDup_cons in Hnd as [Hi0 Hnd]. simpl.
  destruct m as [|m]; simpl in Hm.
  - injection Hm as ->. rewrite touch_all_frame by exact Hi0.
    rewrite Nat.add_0_r. unfold Dict.update_at. apply list_lookup_alter_eq.
  - rewrite (IH (S j) _ m i Hnd Hm).
    assert (i <> i0) as Hne.
    { intros ->. apply Hi0. eapply list_elem_of_lookup_2. exact Hm. }
    unfold Dict.update_at. rewrite list_lookup_alter_ne by congruence.
    now replace (S j + m)%nat with (j + S m)%nat by lia.
Qed.

Lemma omap_all {A B} (F : A -> option B) (l : list A) :
  (forall a, a ∈ l -> is_Some (F a)) -> Some <$> omap F l = F <$> l.
Proof.
  induction l as [|a l IH]; intros H; simpl; [reflexivity|].
  destruct (H a) as [b Hb]; [apply list_elem_of_here|].
  rewrite Hb. simpl. f_equal. apply IH.
  intros a' Ha'. apply H. now apply list_elem_of_further.
Qed.

End RetrieveFacts.

Section RetrieveTheorems.
Import ContextService.

Lemma selected_still_stored query type_filter limit clock s i :
  i ∈ selected query type_filter limit s ->
  is_Some (snd <$> touch_all clock 0 (selected query type_filter limit s)
                     (context_chunks s) !! i).
Proof.
  intros Hin.
  destruct (selected_in_store _ _ _ _ _ Hin) as [e He].
  apply list_elem_of_lookup_1 in Hin as [m Hm].
  rewrite (touch_all_hit clock _ 0 _ m i (selected_NoDup _ _ _ _) Hm), He.
  simpl. eauto.
Qed.

Lemma returned_are_selected query type_filter limit clock s :
  Some <$> (retrieve_context query type_filter limit clock s).1 =
    (fun i => snd <$> context_chunks (retrieve_context query type_filter limit clock s).2 !! i)
      <$> selected query type_filter limit s.
Proof.
  unfold retrieve_context. simpl. apply omap_all.
  intros i Hi. now apply selected_still_stored.
Qed.

(** C10: Retrieve returns the chunks stored at the selected positions and
    changes nothing else: the keys of the store and their order, the
    summaries, and every entry at a position that was not selected
    (whatever its relevance) are as before the call. *)
Theorem retrieve_context_frame query type_filter limit clock s :
  Some <$> (retrieve_context query type_filter limit clock s).1 =
    (fun i => snd <$> context_chunks (retrieve_context query type_filter limit clock s).2 !! i)
      <$> selected query type_filter limit s
  /\ Dict.keys (context_chunks (retrieve_context query type_filter limit clock s).2)
     = Dict.keys (context_chunks s)
  /\ context_summaries (retrieve_context query type_filter limit clock s).2
     = context_summaries s
  /\ forall i,
       i ∉ selected query type_filter limit s ->
       context_chunks (retrieve_context query type_filter limit clock s).2 !! i
       = context_chunks s !! i.
Proof.
  split; [apply returned_are_selected|].
  unfold retrieve_context. simpl. split; [apply touch_all_keys|].
  split; [reflexivity|].
  intros i Hi. now apply touch_all_frame.
Qed.

Lemma retrieve_context_frame_witness :
  selected "database performance" None 1 Examples.two_hits = [0%nat]
  /\ (3 # 10 < _calculate_relevance_score "database performance"
                 "performance database thing")%Q
  /\ context_chunks
       (retrieve_context "database performance" None 1 Examples.tick Examples.two_hits).2
       !! 1%nat
     = context_chunks Examples.two_hits !! 1%nat.
Proof.
  split; [vm_compute; reflexivity|]. split; [vm_compute; reflexivity|].
  apply (retrieve_context_frame "database performance" None 1 Examples.tick
           Examples.two_hits).
  vm_compute. intros H. apply list_elem_of_singleton in H. discriminate H.
Defined.

(** C5, as the code has it: the candidates are exactly the chunks that
    pass the type filter and whose relevance exceeds 0.3, each once; they
    are ranked by descending relevance, chunks of equal relevance staying
    in the order in which the store holds them (insertion order, not
    recency of access); the ranking is cut by the slice [[:limit]], the
    first [limit] entries when [limit] is not negative; the chunks
    returned are the selected ones, in that order, with their access
    fields updated. *)
Theorem retrieve_context_ranking query type_filter limit clock s :
  (forall p, p ∈ relevant_chunks query type_filter s <-> is_candidate query type_filter s p)
  /\ NoDup (relevant_chunks query type_filter s).*1
  /\ ranked query type_filter s ≡ₚ relevant_chunks query type_filter s
  /\ Sorted rank_order (ranked query type_filter s)
  /\ selected query type_filter limit s = (slice_to limit (ranked query type_filter s)).*1
  /\ (0 <= limit ->
      selected query type_filter limit s
      = (firstn (Z.to_nat limit) (ranked query type_filter s)).*1)
  /\ Some <$> (retrieve_context query type_filter limit clock s).1
     = imap (fun j i => touched_at s (clock j) i) (selected query type_filter limit s).
Proof.
  split; [apply relevant_chunks_candidates|].
  split; [apply earlier_NoDup, relevant_from_sorted|].
  split; [apply ranked_perm|].
  split; [apply ranked_sorted|].
  split; [reflexivity|]. split.
  - intros Hlim. unfold selected, slice_to.
    destruct (Z.leb_spec 0 limit); [reflexivity | lia].
  - rewrite returned_are_selected. apply list_eq. intros m.
    rewrite list_lookup_fmap, list_lookup_imap.
    destruct (selected query type_filter limit s !! m) as [i|] eqn:Hm; [|reflexivity].
    simpl. f_equal. unfold retrieve_context, touched_at. simpl.
    rewrite (touch_all_hit clock _ 0 _ m i (selected_NoDup _ _ _ _) Hm).
    destruct (context_chunks s !! i) as [[k c]|]; reflexivity.
Qed.

Lemma retrieve_context_ranking_witness :
  selected "database performance" None 1 Examples.two_hits
  = (firstn 1 (ranked "database performance" None Examples.two_hits)).*1.
Proof.
  apply (retrieve_context_ranking "database performance" None 1 Examples.tick
           Examples.two_hits).
  lia.
Defined.

(** C5 as stated fails on ties: both chunks match the query fully, ["b"]
    was accessed after ["a"], and Retrieve still lists ["a"] first. *)
Lemma retrieve_context_ties_keep_store_order :
  exists a b,
    context_chunks Examples.two_hits = [("a", a); ("b", b)]
    /\ id <$> (retrieve_context "database performance" None 5 Examples.tick
                 Examples.two_hits).1 = ["a"; "b"]
    /\ (_calculate_relevance_score "database performance" (content a)
        == _calculate_relevance_score "database performance" (content b))%Q
    /\ last_accessed a < last_accessed b
    /\ ~ Spec.ahead "database performance" a b.
Proof.
  eexists _, _. split; [reflexivity|]. split; [vm_compute; reflexivity|].
  split; [vm_compute; reflexivity|]. split; [vm_compute; reflexivity|].
  intros [H|[_ H]]; vm_compute in H; congruence.
Qed.

End RetrieveTheorems.

(** ** More on the curator: loading, summarizing, auto-curation *)

Section CuratorMore.
Import Curator.

Lemma unordered_StronglySorted {A} (l : list A) : StronglySorted (fun _ _ => True) l.
Proof.
  induction l as [|x l IH]; constructor; [exact IH|].
  apply Forall_forall. auto.
Qed.

(** The messages a curation or a listing works on are exactly the messages
    of the conversation asked for, each once, oldest first. *)
Theorem load_messages_sorted (cid : string) (db : Db) :
  load_messages cid db ≡ₚ filter (fun m => msg_conversation_id m = Some cid) (messages db)
  /\ Sorted (fun a b => msg_created_at a <= msg_created_at b) (load_messages cid db)
  /\ Forall (fun m => msg_conversation_id m = Some cid) (list_messages cid db).
Proof.
  split; [apply stable_sort_perm|]. split.
  - apply (stable_sort_Sorted _ _ (fun _ _ => True)).
    + intros x y H. apply Z.ltb_lt in H. lia.
    + intros x y _ H. apply Z.ltb_ge in H. lia.
    + apply unordered_StronglySorted.
  - unfold list_messages, load_messages.
    eapply Permutation_Forall; [symmetry; apply stable_sort_perm|].
    apply Forall_forall. intros m Hm. now apply list_elem_of_filter in Hm as [Hm _].
Qed.

Lemma summarize_parts_nil (msgs : list Message) (budget : Z) :
  summarize_parts msgs budget = [] <-> forallb blank msgs = true.
Proof.
  revert budget. induction msgs as [|m msgs IH]; intros budget; simpl; [tauto|].
  unfold blank at 1. destruct (PyStr.is_empty (PyStr.strip (content_or_empty m))); simpl.
  - apply IH.
  - destruct (_ <=? 0); split; discriminate.
Qed.

Lemma prefix_append (a b : string) : String.prefix a (a +:+ b) = true.
Proof.
  induction a as [|c a IH]; simpl; [now destruct b|].
  destruct (ascii_dec c c); [exact IH | congruence].
Qed.

(** The summarizer answers the empty string exactly when every message is
    blank; otherwise, whatever the token target (even zero or negative),
    the summary opens with the curator's header line. *)
Theorem summarize_messages_blank (msgs : list Message) (target : Z) :
  (forallb blank msgs = true -> summarize_messages msgs target = EmptyString)
  /\ (forallb blank msgs = false ->
      String.prefix (header +:+ PyStr.LF) (summarize_messages msgs target) = true
      /\ summarize_messages msgs target <> EmptyString).
Proof.
  unfold summarize_messages. split.
  - intros H. apply (summarize_parts_nil msgs target) in H. now rewrite H.
  - intros H. destruct (summarize_parts msgs target) as [|p ps] eqn:Hp.
    + apply summarize_parts_nil in Hp. congruence.
    + split; [|discriminate].
      change (header +:+ PyStr.LF +:+ PyStr.join PyStr.LF (p :: ps))
        with ((header +:+ PyStr.LF) +:+ PyStr.join PyStr.LF (p :: ps)).
      apply prefix_append.
Qed.

Lemma summarize_messages_blank_witness :
  summarize_messages [mkMessage "m1" (Some "c1") "user" (Some "   ") 0;
                      mkMessage "m2" (Some "c1") "user" None 1] 800 = EmptyString
  /\ String.prefix (header +:+ PyStr.LF)
       (summarize_messages [mkMessage "m1" (Some "c1") "user" (Some "Hi. Bye") 0] (-5))
     = true.
Proof.
  split.
  - apply summarize_messages_blank. reflexivity.
  - apply summarize_messages_blank. reflexivity.
Defined.

Lemma estimate_tokens_le_length (text : string) :
  0 <= estimate_tokens text <= Z.of_nat (String.length text).
Proof.
  destruct text as [|c text]; [vm_compute; split; discriminate|].
  rewrite estimate_tokens_nonempty by discriminate.
  set (n := Z.of_nat (String.length (String c text))).
  assert (1 <= n) by (unfold n; simpl String.length; lia).
  assert (n / 4 <= n) by (apply Z.div_le_upper_bound; lia).
  lia.
Qed.

Lemma sum_tokens_le_chars (rows : list Message) : sum_tokens rows <= total_chars rows.
Proof.
  induction rows as [|r rows IH]; simpl; [lia|].
  pose proof (estimate_tokens_le_length (content_or_empty r)). lia.
Qed.

(** A conversation of at most 50 messages holding at most 8000 characters
    in all is within both default budgets: curation answers
    [summarized = false] and leaves the database as it is. *)
Theorem small_conversation_not_curated (cid new_id : string) (now : Z) (db : Db) :
  (length (load_messages cid db) <= 50)%nat ->
  total_chars (load_messages cid db) <= 8000 ->
  summarized (curate_conversation default_budgets cid new_id now db).1 = false
  /\ created_summary_id (curate_conversation default_budgets cid new_id now db).1 = None
  /\ (curate_conversation default_budgets cid new_id now db).2 = db.
Proof.
  intros Hn Hc. unfold curate_conversation.
  pose proof (sum_tokens_le_chars (load_messages cid db)) as Ht.
  destruct (Z.leb_spec (Z.of_nat (length (load_messages cid db)))
              (CONTEXT_BUDGET_MESSAGES default_budgets)) as [_|Hbad];
    [|simpl in Hbad; lia].
  destruct (Z.leb_spec (sum_tokens (load_messages cid db))
              (CONTEXT_BUDGET_TOKENS default_budgets)) as [_|Hbad];
    [|simpl in Hbad; lia].
  simpl. auto.
Qed.

Lemma small_conversation_not_curated_witness :
  (curate_conversation default_budgets "c9" "s1" 5
     (mkDb [mkMessage "m1" (Some "c9") "user" (Some "Hello there") 0] [])).2
  = mkDb [mkMessage "m1" (Some "c9") "user" (Some "Hello there") 0] [].
Proof.
  apply small_conversation_not_curated.
  - vm_compute. lia.
  - vm_compute. discriminate.
Defined.

(** The cut set is a prefix of the conversation of length floor(3n/5): at
    least two fifths of the messages stay out of it, and in a non-empty
    conversation the newest message is never archived. *)
Theorem to_summarize_prefix (rows : list Message) :
  to_summarize rows ++ skipn (cutoff_idx (length rows)) rows = rows
  /\ length (to_summarize rows) = (3 * length rows / 5)%nat
  /\ (2 * length rows <= 5 * length (skipn (cutoff_idx (length rows)) rows))%nat
  /\ (rows <> [] -> (length (to_summarize rows) < length rows)%nat).
Proof.
  unfold to_summarize, cutoff_idx.
  assert (Hle : (3 * length rows / 5 <= length rows)%nat).
  { apply Nat.Div0.div_le_upper_bound; lia. }
  assert (Hmul : (5 * (3 * length rows / 5) <= 3 * length rows)%nat).
  { apply Nat.Div0.mul_div_le. }
  split; [apply firstn_skipn|]. split; [rewrite length_take; lia|].
  split; [rewrite length_drop; lia|].
  intros Hne. rewrite length_take. destruct rows; [congruence|]. simpl length in *. lia.
Qed.

Lemma to_summarize_prefix_witness :
  (length (to_summarize (messages Examples.long_conversation)) < 100)%nat.
Proof.
  apply (to_summarize_prefix (messages Examples.long_conversation)).
  discriminate.
Defined.

(** With auto-curation on, posting a message to a named conversation
    leaves the database in the state an explicit curate call would produce
    right after the insert; with auto-curation off, or an empty conversation
    id, the message is inserted and the summaries stay as they are. *)
Theorem create_message_curates_like_route (auto : bool) (cfg : Budgets)
    (payload : MessageCreate) (new_id : string) (now : Z)
    (summary_id : string) (summary_now : Z) (db : Db) :
  let msg := mkMessage new_id (Some (payload_conversation_id payload))
               (payload_sender payload) (Some (payload_content payload)) now in
  let inserted := mkDb (messages db ++ [msg]) (summaries db) in
  (create_message auto cfg payload new_id now summary_id summary_now db).1 = msg
  /\ (auto = true -> payload_conversation_id payload <> EmptyString ->
      (create_message auto cfg payload new_id now summary_id summary_now db).2
      = (curate_conversation cfg (payload_conversation_id payload)
           summary_id summary_now inserted).2)
  /\ (auto = false \/ payload_conversation_id payload = EmptyString ->
      (create_message auto cfg payload new_id now summary_id summary_now db).2 = inserted).
Proof.
  cbv zeta. unfold create_message, curate_conversation.
  set (msg := mkMessage _ _ _ _ _). set (inserted := mkDb _ _).
  set (rows := load_messages _ inserted).
  split; [|split].
  - destruct (auto && _); [destruct (_ || _)|]; reflexivity.
  - intros -> Hcid.
    destruct (payload_conversation_id payload) eqn:E; [congruence|]. simpl andb. cbv iota.
    destruct (Z.ltb_spec (CONTEXT_BUDGET_MESSAGES cfg) (Z.of_nat (length rows)));
      destruct (Z.ltb_spec (CONTEXT_BUDGET_TOKENS cfg) (sum_tokens rows));
      destruct (Z.leb_spec (Z.of_nat (length rows)) (CONTEXT_BUDGET_MESSAGES cfg));
      destruct (Z.leb_spec (sum_tokens rows) (CONTEXT_BUDGET_TOKENS cfg));
      try lia; reflexivity.
  - intros [-> | ->]; [reflexivity|]. now rewrite andb_false_r.
Qed.

Lemma create_message_curates_like_route_witness :
  length (summaries
    (create_message true default_budgets (mkMessageCreate "c1" "user" "One more")
       "m101" 100 "s1" 101 Examples.long_conversation).2) = 1%nat
  /\ summaries
       (create_message false default_budgets (mkMessageCreate "c1" "user" "One more")
          "m101" 100 "s1" 101 Examples.long_conversation).2 = [].
Proof.
  pose proof (create_message_curates_like_route true default_budgets
                (mkMessageCreate "c1" "user" "One more") "m101" 100 "s1" 101
                Examples.long_conversation) as (_ & Hon & _).
  pose proof (create_message_curates_like_route false default_budgets
                (mkMessageCreate "c1" "user" "One more") "m101" 100 "s1" 101
                Examples.long_conversation) as (_ & _ & Hoff).
  split.
  - rewrite Hon; [vm_compute; reflexivity | reflexivity | discriminate].
  - rewrite Hoff; [reflexivity | now left].
Defined.

(** After a curation that summarized, the new summary text is served by
    [list_summaries] for that conversation, and the list served for any
    other conversation is what it was. *)
Theorem curated_summary_is_listed (cfg : Budgets) (cid other new_id : string)
    (now : Z) (db : Db) :
  summarized (curate_conversation cfg cid new_id now db).1 = true ->
  summarize_messages (to_summarize (load_messages cid db)) (target_tokens cfg)
    ∈ list_summaries cid (curate_conversation cfg cid new_id now db).2
  /\ (other <> cid ->
      list_summaries other (curate_conversation cfg cid new_id now db).2
      = list_summaries other db).
Proof.
  unfold curate_conversation.
  destruct (_ && _); simpl; [discriminate|]. intros _. split.
  - unfold list_summaries. simpl. apply list_elem_of_fmap.
    eexists. split; [|rewrite stable_sort_perm; apply list_elem_of_filter; split;
      [|apply elem_of_app; right; apply list_elem_of_here]]; reflexivity.
  - intros Hne. unfold list_summaries. simpl. rewrite filter_app.
    rewrite filter_cons_False by (simpl; congruence).
    now rewrite filter_nil, app_nil_r.
Qed.

Lemma curated_summary_is_listed_witness :
  length (list_summaries "c1"
            (curate_conversation default_budgets "c1" "s1" 200
               Examples.long_conversation).2) = 1%nat
  /\ list_summaries "c2"
       (curate_conversation default_budgets "c1" "s1" 200 Examples.long_conversation).2
     = list_summaries "c2" Examples.long_conversation.
Proof.
  split; [vm_compute; reflexivity|].
  apply (curated_summary_is_listed default_budgets "c1" "c2" "s1" 200
           Examples.long_conversation).
  - vm_compute. reflexivity.
  - discriminate.
Defined.

End CuratorMore.

(** ** Scores *)

Section ScoreFacts.
Import ContextService.






Lemma length_score_mono (n m : nat) :
  (n <= m)%nat -> (Qmin (Z.of_nat n # 1000) 1 <= Qmin (Z.of_nat m # 1000) 1)%Q.
Proof.
  intros H. apply Q.min_le_compat_r. unfold Qle. simpl. lia.
Qed.

(** The importance score never decreases when the content gets longer or
    the priority higher, the type being the same. *)
Theorem importance_score_monotone c1 c2 ty p1 p2 :
  (String.length c1 <= String.length c2)%nat ->
  priority_value p1 <= priority_value p2 ->
  (_calculate_importance_score c1 ty p1 <= _calculate_importance_score c2 ty p2)%Q.
Proof.
  intros Hlen Hpr. unfold _calculate_importance_score.
  apply Q.min_le_compat_r.
  pose proof (length_score_mono _ _ Hlen) as Hl.
  assert (Hp : (priority_value p1 # 4 <= priority_value p2 # 4)%Q)
    by (unfold Qle; simpl; lia).
  set (a1 := (priority_value p1 # 4)%Q) in *. set (a2 := (priority_value p2 # 4)%Q) in *.
  set (l1 := Qmin (Z.of_nat (String.length c1) # 1000) 1) in *.
  set (l2 := Qmin (Z.of_nat (String.length c2) # 1000) 1) in *.
  set (t := type_score ty). lra.
Qed.

Lemma importance_score_monotone_witness :
  (_calculate_importance_score "short" CODE_ANALYSIS LOW
   <= _calculate_importance_score "a longer text" CODE_ANALYSIS HIGH)%Q.
Proof.
  apply importance_score_monotone.
  - vm_compute. lia.
  - vm_compute. discriminate.
Defined.

Lemma length_filter_le {A} (f : A -> bool) (l : list A) :
  (length (List.filter f l) <= length l)%nat.
Proof. induction l as [|a l IH]; simpl; [lia|]. destruct (f a); simpl; lia. Qed.

(** The relevance of a content to a query lies between 0 and 1. *)
Theorem relevance_score_bounds query content :
  (0 <= _calculate_relevance_score query content <= 1)%Q.
Proof.
  unfold _calculate_relevance_score.
  destruct (word_set query) as [|w ws] eqn:Hq; [split; discriminate|].
  set (qs := w :: ws).
  pose proof (length_filter_le (fun w => bool_decide (w ∈ word_set content)) qs) as Hle.
  set (k := length (List.filter _ qs)) in *.
  assert (Hn : Z.pos (Pos.of_nat (length qs)) = Z.of_nat (length qs)).
  { unfold qs. simpl length. lia. }
  unfold Qle. simpl Qnum. simpl Qden.
  change (S (length ws)) with (length qs). rewrite Hn. split; lia.
Qed.

Lemma filter_all {A} (f : A -> bool) (l : list A) :
  (forall a, a ∈ l -> f a = true) -> List.filter f l = l.
Proof.
  induction l as [|a l IH]; intros H; simpl; [reflexivity|].
  rewrite (H a) by apply list_elem_of_here. f_equal. apply IH.
  intros b Hb. apply H. now apply list_elem_of_further.
Qed.

(** A content that holds every word of a non-blank query, whatever the
    case, has relevance 1 to it. *)
Theorem relevance_score_full_match query content :
  word_set query <> [] ->
  (forall w, w ∈ word_set query -> w ∈ word_set content) ->
  (_calculate_relevance_score query content == 1)%Q.
Proof.
  intros Hne Hall. unfold _calculate_relevance_score.
  destruct (word_set query) as [|w ws] eqn:Hq; [congruence|].
  rewrite filter_all.
  - unfold Qeq. simpl Qnum. simpl Qden. simpl length. lia.
  - intros a Ha. apply bool_decide_eq_true. now apply Hall.
Qed.

Lemma relevance_score_full_match_witness :
  (_calculate_relevance_score "Database PERFORMANCE" "database performance issue" == 1)%Q.
Proof.
  apply relevance_score_full_match.
  - vm_compute. discriminate.
  - intros w Hw. vm_compute in Hw.
    apply elem_of_cons in Hw as [->|Hw]; [vm_compute; apply list_elem_of_here|].
    apply elem_of_cons in Hw as [->|Hw];
      [vm_compute; apply list_elem_of_further, list_elem_of_here|].
    now apply elem_of_nil in Hw.
Defined.

Lemma relevant_from_blank query type_filter d : forall i,
  word_set query = [] -> relevant_from query type_filter i d = [].
Proof.
  intros i Hq. revert i. induction d as [|[k c] d IH]; intros i; [reflexivity|].
  rewrite relevant_from_cons, IH.
  unfold _calculate_relevance_score. rewrite Hq.
  now rewrite andb_false_r.
Qed.

(** A query without a word (empty or white space only) retrieves nothing
    and touches no chunk, whatever the filter and the limit. *)
Theorem retrieve_context_blank_query query type_filter limit clock s :
  word_set query = [] ->
  retrieve_context query type_filter limit clock s = ([], s).
Proof.
  intros Hq. unfold retrieve_context, selected, ranked, relevant_chunks.
  rewrite relevant_from_blank by exact Hq.
  assert (Hs : slice_to limit (stable_sort higher_score ([] : list (nat * Q))) = []).
  { unfold slice_to. destruct (0 <=? limit); apply take_nil. }
  rewrite Hs. simpl. now destruct s.
Qed.

Lemma retrieve_context_blank_query_witness :
  retrieve_context "   " None 5 Examples.tick Examples.two_hits = ([], Examples.two_hits).
Proof. apply retrieve_context_blank_query. reflexivity. Defined.

(** Retrieve returns as many chunks as the slice [[:limit]] leaves of the
    candidates: the smaller of [limit] and the number of candidates when
    [limit] is not negative, and all but the last [-limit] candidates when
    it is negative. *)
Theorem retrieve_context_size query type_filter limit clock s :
  (0 <= limit ->
   length (retrieve_context query type_filter limit clock s).1
   = Nat.min (Z.to_nat limit) (length (relevant_chunks query type_filter s)))
  /\ (limit < 0 ->
      length (retrieve_context query type_filter limit clock s).1
      = (length (relevant_chunks query type_filter s) - Z.to_nat (- limit))%nat).
Proof.
  assert (Hlen : length (retrieve_context query type_filter limit clock s).1
                 = length (slice_to limit (ranked query type_filter s))).
  { pose proof (returned_are_selected query type_filter limit clock s) as H.
    apply (f_equal length) in H. rewrite !length_fmap in H.
    rewrite H. unfold selected. now rewrite length_fmap. }
  assert (Hperm : length (ranked query type_filter s)
                  = length (relevant_chunks query type_filter s)).
  { apply Permutation_length, ranked_perm. }
  rewrite Hlen. unfold slice_to. split; intros Hl.
  - destruct (Z.leb_spec 0 limit); [|lia]. rewrite length_take. lia.
  - destruct (Z.leb_spec 0 limit); [lia|]. rewrite length_take. lia.
Qed.

Lemma retrieve_context_size_witness :
  length (retrieve_context "database performance" None 1 Examples.tick
            Examples.two_hits).1 = 1%nat
  /\ length (retrieve_context "database performance" None (-1) Examples.tick
               Examples.two_hits).1 = 1%nat.
Proof.
  split.
  - rewrite (proj1 (retrieve_context_size "database performance" None 1 Examples.tick
                      Examples.two_hits)); [vm_compute; reflexivity | lia].
  - rewrite (proj2 (retrieve_context_size "database performance" None (-1) Examples.tick
                      Examples.two_hits)); [vm_compute; reflexivity | lia].
Defined.

End ScoreFacts.

(** ** Storing, compressing and the invariants of stored chunks *)

Section EntryFacts.
Context {V : Type} (P : string * V -> Prop).
Implicit Types (d : list (string * V)).

Lemma keys_set_new k (v : V) d :
  Dict.get k d = None -> Dict.keys (Dict.set k v d) = Dict.keys d ++ [k].
Proof.
  induction d as [|[k0 v0] d IH]; simpl; [reflexivity|].
  destruct (String.eqb k k0); [discriminate|]. intros H. simpl. now rewrite IH.
Qed.

Lemma keys_set_old k (v : V) d :
  is_Some (Dict.get k d) -> Dict.keys (Dict.set k v d) = Dict.keys d.
Proof.
  induction d as [|[k0 v0] d IH]; simpl; [intros [? H]; discriminate H|].
  destruct (String.eqb k k0); [reflexivity|]. intros H. simpl. now rewrite IH.
Qed.






Lemma del_set_new k (v : V) d :
  Dict.get k d = None -> Dict.del k (Dict.set k v d) = d.
Proof.
  induction d as [|[k0 v0] d IH]; simpl.
  - now rewrite String.eqb_refl.
  - destruct (String.eqb k k0) eqn:E; [discriminate|]. intros H. simpl.
    rewrite E. now rewrite IH.
Qed.

Lemma del_missing k d : Dict.get k d = None -> Dict.del k d = d.
Proof.
  induction d as [|[k0 v0] d IH]; simpl; [reflexivity|].
  destruct (String.eqb k k0); [discriminate|]. intros H. now rewrite IH.
Qed.

End EntryFacts.

Section StoreMore.
Import ContextService.

(** Store files the new chunk under its id with the fields of a fresh
    chunk, leaves every other id and the summaries alone, and keeps the
    order of the store: a new id goes last, an id already present keeps its
    place. *)
Theorem store_context_frame content ty pr meta cid now s :
  (store_context content ty pr meta cid now s).1 = cid
  /\ (exists chunk,
        Dict.get cid (context_chunks (store_context content ty pr meta cid now s).2)
        = Some chunk
        /\ id chunk = cid /\ ContextService.content chunk = content
        /\ created_at chunk = now /\ last_accessed chunk = now
        /\ access_count chunk = 1 /\ compressed chunk = false /\ summary chunk = None)
  /\ (forall k, k <> cid ->
        Dict.get k (context_chunks (store_context content ty pr meta cid now s).2)
        = Dict.get k (context_chunks s))
  /\ (Dict.get cid (context_chunks s) = None ->
        Dict.keys (context_chunks (store_context content ty pr meta cid now s).2)
        = Dict.keys (context_chunks s) ++ [cid])
  /\ (is_Some (Dict.get cid (context_chunks s)) ->
        Dict.keys (context_chunks (store_context content ty pr meta cid now s).2)
        = Dict.keys (context_chunks s))
  /\ context_summaries (store_context content ty pr meta cid now s).2 = context_summaries s.
Proof.
  split; [reflexivity|]. split.
  - eexists. split; [apply stored_chunk_lookup|]. simpl. repeat split; reflexivity.
  - unfold store_context. simpl. split; [|split; [|split; [|reflexivity]]].
    + intros k Hk. now apply get_set_ne.
    + apply keys_set_new.
    + apply keys_set_old.
Qed.

Lemma store_context_frame_witness :
  Dict.keys (context_chunks
    (store_context "third" USER_FEEDBACK HIGH None "c" 3 Examples.two_hits).2)
  = ["a"; "b"; "c"]
  /\ Dict.keys (context_chunks
       (store_context "again" USER_FEEDBACK HIGH None "a" 3 Examples.two_hits).2)
     = ["a"; "b"]
  /\ Dict.get "b" (context_chunks
       (store_context "again" USER_FEEDBACK HIGH None "a" 3 Examples.two_hits).2)
     = Dict.get "b" (context_chunks Examples.two_hits).
Proof.
  pose proof (store_context_frame "third" USER_FEEDBACK HIGH None "c" 3 Examples.two_hits)
    as (_ & _ & _ & Hnew & _).
  pose proof (store_context_frame "again" USER_FEEDBACK HIGH None "a" 3 Examples.two_hits)
    as (_ & _ & Hother & _ & Hold & _).
  split; [rewrite Hnew; reflexivity|]. split.
  - rewrite Hold; [reflexivity | vm_compute; eauto].
  - apply Hother. discriminate.
Defined.

End StoreMore.

Section ReachableInvariants.
Import ContextService.










(** Compress changes nothing but the chunk it is asked to compress, and of
    that chunk only the content, the flag and the summary: the id, type,
    priority, timestamps, access count, importance score and metadata, the
    order of the store and the summaries are as before. *)
Theorem compress_context_frame cid s :
  Dict.keys (context_chunks (compress_context cid s).2) = Dict.keys (context_chunks s)
  /\ context_summaries (compress_context cid s).2 = context_summaries s
  /\ (forall k, k <> cid ->
        Dict.get k (context_chunks (compress_context cid s).2)
        = Dict.get k (context_chunks s))
  /\ (forall chunk,
        Dict.get cid (context_chunks s) = Some chunk ->
        exists chunk',
          Dict.get cid (context_chunks (compress_context cid s).2) = Some chunk'
          /\ same_identity chunk chunk'
          /\ last_accessed chunk' = last_accessed chunk
          /\ access_count chunk' = access_count chunk).
Proof.
  split; [apply compress_context_keys|]. split; [|split].
  - unfold compress_context.
    destruct (Dict.get cid (context_chunks s)) as [c|]; [|reflexivity].
    now destruct (compressed c || _).
  - intros k Hk. now apply compress_context_get_ne.
  - intros chunk Hget. unfold compress_context. rewrite Hget.
    destruct (compressed chunk || _); simpl.
    + exists chunk. unfold same_identity. auto 10.
    + exists (compress_chunk chunk). rewrite get_update_eq, Hget.
      unfold same_identity. simpl. auto 10.
Qed.

Lemma compress_context_frame_witness :
  exists chunk',
    Dict.get "m" (context_chunks (compress_context "m" Examples.mid_chars).2) = Some chunk'
    /\ access_count chunk' = 1.
Proof.
  destruct (proj2 (proj2 (proj2 (compress_context_frame "m" Examples.mid_chars)))
              (mkChunk "m" (Examples.xs 150) CONVERSATION HIGH 0 0 1
                 (_calculate_importance_score (Examples.xs 150) CONVERSATION HIGH)
                 false None []) eq_refl)
    as (chunk' & Hget & _ & _ & Hac).
  exists chunk'. split; [exact Hget | exact Hac].
Defined.

Lemma length_substring (n m : nat) (s : string) :
  String.length (String.substring n m s) = Nat.min m (String.length s - n).
Proof.
  revert n m. induction s as [|c s IH]; intros [|n] [|m]; simpl; try reflexivity.
  - now rewrite IH, Nat.sub_0_r.
  - apply IH.
  - apply IH.
Qed.

(** The length of a compressed content: unchanged up to 100 characters,
    L + 16 up to 200, 216 up to 400, and 422 beyond; so compression
    shortens a content exactly when its length is between 217 and 400 or
    above 422, and a content of 401 to 421 characters comes out longer. *)
Theorem compress_content_length (content : string) :
  let L := String.length content in
  String.length (_compress_content content)
  = (if (L <=? 100)%nat then L
     else if (400 <? L)%nat then 422
     else Nat.min L 200 + 16)%nat
  /\ ((String.length (_compress_content content) < L)%nat
      <-> (216 < L <= 400)%nat \/ (422 < L)%nat).
Proof.
  cbv zeta. unfold _compress_content, compression_threshold.
  destruct (Nat.leb_spec (String.length content) 100) as [H1|H1]; [split; [reflexivity|lia]|].
  destruct (Nat.ltb_spec 400 (String.length content)) as [H4|H4].
  - rewrite !length_append. unfold PyStr.take, PyStr.take_last, PyStr.LF.
    rewrite !length_substring. simpl String.length. split; lia.
  - rewrite length_append. unfold PyStr.take. rewrite length_substring.
    simpl String.length. split; lia.
Qed.

(** Deleting through the route: an unknown id is answered [false] and
    changes nothing; a known id is answered [true], is gone afterwards and
    takes no other chunk with it; and deleting a chunk right after storing
    it under a new id gives back the store as it was. *)
Theorem delete_context_round_trip cid s :
  (Dict.get cid (context_chunks s) = None -> delete_context cid s = (false, s))
  /\ (is_Some (Dict.get cid (context_chunks s)) ->
      (delete_context cid s).1 = true
      /\ (Dict.wf (context_chunks s) ->
          Dict.get cid (context_chunks (delete_context cid s).2) = None)
      /\ (forall k, k <> cid ->
            Dict.get k (context_chunks (delete_context cid s).2)
            = Dict.get k (context_chunks s)))
  /\ (forall content ty pr meta now,
        Dict.get cid (context_chunks s) = None ->
        delete_context cid (store_context content ty pr meta cid now s).2 = (true, s)).
Proof.
  unfold delete_context, Dict.mem. split; [|split].
  - now intros ->.
  - intros [c Hc]. rewrite Hc. simpl. split; [reflexivity|]. split.
    + intros Hwf. now apply get_del_eq.
    + intros k Hk. now apply get_del_ne.
  - intros content ty pr meta now Hnone. rewrite stored_chunk_lookup.
    unfold store_context. simpl. rewrite del_set_new by exact Hnone. now destruct s.
Qed.

Lemma delete_context_round_trip_witness :
  delete_context "zz" Examples.two_hits = (false, Examples.two_hits)
  /\ (delete_context "a" Examples.two_hits).1 = true
  /\ delete_context "c" (store_context "third" USER_FEEDBACK HIGH None "c" 3
                           Examples.two_hits).2 = (true, Examples.two_hits).
Proof.
  pose proof (delete_context_round_trip "zz" Examples.two_hits) as (Hmiss & _ & _).
  pose proof (delete_context_round_trip "a" Examples.two_hits) as (_ & Hhit & _).
  pose proof (delete_context_round_trip "c" Examples.two_hits) as (_ & _ & Hrt).
  split; [apply Hmiss; reflexivity|]. split.
  - apply Hhit. vm_compute. eauto.
  - apply Hrt. reflexivity.
Defined.

End ReachableInvariants.

(** ** Summaries of several chunks *)

Section SummaryFacts.
Import ContextService.

Lemma filter_sublist {A} (f : A -> bool) (l : list A) : sublist (List.filter f l) l.
Proof.
  induction l as [|a l IH]; simpl; [constructor|].
  destruct (f a); [now apply sublist_skip | now apply sublist_cons].
Qed.

Lemma filter_Forall {A} (f : A -> bool) (l : list A) :
  Forall (fun a => f a = true) (List.filter f l).
Proof.
  induction l as [|a l IH]; simpl; [constructor|].
  destruct (f a) eqn:E; [constructor; assumption | exact IH].
Qed.

(** The key points are at most five, each longer than 20 characters, and
    they are stripped sentences of the content in their order of
    appearance. *)
Theorem extract_key_points_bounds (content : string) :
  (length (_extract_key_points content) <= 5)%nat
  /\ Forall (fun p => (20 < String.length p)%nat) (_extract_key_points content)
  /\ sublist (_extract_key_points content)
       (map PyStr.strip (PyStr.split_char "."%char content)).
Proof.
  unfold _extract_key_points. split; [rewrite length_take; lia|]. split.
  - apply Forall_take.
    eapply Forall_impl; [apply filter_Forall|].
    intros p Hp. now apply Nat.ltb_lt in Hp.
  - etransitivity; [apply sublist_take | apply filter_sublist].
Qed.

(** The entities are listed once each; every one is a word of the content
    that starts with an upper-case letter and has more than two
    characters. *)
Theorem extract_entities_sound (content : string) :
  NoDup (_extract_entities content)
  /\ forall w, w ∈ _extract_entities content <->
       w ∈ PyStr.split content
       /\ first_isupper w = true
       /\ (2 < String.length w)%nat.
Proof.
  unfold _extract_entities. split; [apply NoDup_remove_dups|].
  intros w. rewrite elem_of_remove_dups, list_elem_of_In, filter_In.
  rewrite <- list_elem_of_In, andb_true_iff, Nat.ltb_lt. tauto.
Qed.



Lemma found_chunks_some ids s cid :
  cid ∈ ids -> is_Some (Dict.get cid (context_chunks s)) -> found_chunks ids s <> [].
Proof.
  unfold found_chunks. intros Hin [c Hc].
  induction ids as [|i ids IH]; [now apply elem_of_nil in Hin|].
  simpl. apply elem_of_cons in Hin as [<-|Hin].
  - now rewrite Hc.
  - destruct (Dict.get i (context_chunks s)); [discriminate | now apply IH].
Qed.

(** When at least one of the ids names a stored chunk, Summarize answers
    with the new id and files one record under it.  The record lists the
    ids exactly as they were passed, those that name no chunk included;
    the chunks and the summaries filed under other ids are untouched. *)
Theorem summarize_contexts_records_input ids summary_type new_id now s cid :
  cid ∈ ids ->
  is_Some (Dict.get cid (context_chunks s)) ->
  exists record,
    summarize_contexts ids summary_type new_id now s
    = (Ok new_id,
       mkService (context_chunks s) (Dict.set new_id record (context_summaries s)))
    /\ Dict.get new_id (context_summaries (summarize_contexts ids summary_type new_id now s).2)
       = Some record
    /\ summary_id record = new_id
    /\ original_chunks record = ids
    /\ summary_created_at record = now
    /\ (forall k, k <> new_id ->
          Dict.get k (context_summaries (summarize_contexts ids summary_type new_id now s).2)
          = Dict.get k (context_summaries s)).
Proof.
  intros Hin Hsome. pose proof (found_chunks_some ids s cid Hin Hsome) as Hne.
  unfold summarize_contexts.
  destruct (found_chunks ids s) as [|c cs]; [congruence|].
  eexists. split; [reflexivity|]. simpl. split; [apply get_set_eq|].
  split; [reflexivity|]. split; [reflexivity|]. split; [reflexivity|].
  intros k Hk. now apply get_set_ne.
Qed.

Lemma summarize_contexts_records_input_witness :
  exists record,
    Dict.get "s1" (context_summaries
      (summarize_contexts ["ghost"; "a"] "general" "s1" 9 Examples.two_hits).2) = Some record
    /\ original_chunks record = ["ghost"; "a"].
Proof.
  destruct (summarize_contexts_records_input ["ghost"; "a"] "general" "s1" 9
              Examples.two_hits "a")
    as (record & _ & Hget & _ & Horig & _).
  - apply list_elem_of_further, list_elem_of_here.
  - vm_compute. eauto.
  - exists record. split; [exact Hget | exact Horig].
Defined.

End SummaryFacts.

(** ** The sweep as a whole *)

Section SweepMore.
Import ContextService.

Section AppFacts.
Context {V : Type}.
Implicit Types (pre d : list (string * V)).

Lemma get_app_notin k pre d :
  k ∉ Dict.keys pre -> Dict.get k (pre ++ d) = Dict.get k d.
Proof.
  induction pre as [|[k0 v0] pre IH]; simpl; intros Hk; [reflexivity|].
  apply not_elem_of_cons in Hk as [Hne Hk].
  destruct (String.eqb_spec k k0); [contradiction | auto].
Qed.

Lemma del_app_notin k pre d :
  k ∉ Dict.keys pre -> Dict.del k (pre ++ d) = pre ++ Dict.del k d.
Proof.
  induction pre as [|[k0 v0] pre IH]; simpl; intros Hk; [reflexivity|].
  apply not_elem_of_cons in Hk as [Hne Hk].
  destruct (String.eqb_spec k k0); [contradiction | now rewrite IH].
Qed.

Lemma update_app_notin (f : V -> V) k pre d :
  k ∉ Dict.keys pre -> Dict.update f k (pre ++ d) = pre ++ Dict.update f k d.
Proof.
  induction pre as [|[k0 v0] pre IH]; simpl; intros Hk; [reflexivity|].
  apply not_elem_of_cons in Hk as [Hne Hk].
  destruct (String.eqb_spec k k0); [contradiction | now rewrite IH].
Qed.

Lemma omap_idem {A} (f : A -> option A) (l : list A) :
  (forall a b, f a = Some b -> f b = Some b) -> omap f (omap f l) = omap f l.
Proof.
  intros Hf. induction l as [|a l IH]; [reflexivity|].
  cbn. destruct (f a) as [b|] eqn:E; [|exact IH].
  cbn. rewrite (Hf a b E). f_equal. exact IH.
Qed.

End AppFacts.

Lemma decay_step_pointwise now pre k c rest sums n :
  k ∉ Dict.keys pre ->
  (decay_step now (mkService (pre ++ (k, c) :: rest) sums, n) (k, c)).1
  = mkService (pre ++ option_list (swept_entry now (k, c)) ++ rest) sums.
Proof.
  intros Hk. unfold decay_step, swept_entry, swept, stale, decayed_entry. simpl.
  destruct (days decay_threshold <? now - last_accessed c); [|reflexivity].
  destruct (Qltb (importance_score c) (1 # 2)); simpl.
  - rewrite del_app_notin by exact Hk. simpl. now rewrite String.eqb_refl.
  - unfold compress_context. simpl.
    rewrite get_app_notin by exact Hk. simpl. rewrite String.eqb_refl.
    destruct (compressed c || _); simpl; [reflexivity|].
    rewrite update_app_notin by exact Hk. simpl. now rewrite String.eqb_refl.
Qed.

Lemma swept_entry_key now e e' : swept_entry now e = Some e' -> e'.1 = e.1.
Proof.
  unfold swept_entry. destruct (swept now e.2); simpl; [|discriminate].
  now intros [= <-].
Qed.

Lemma decay_fold_pointwise now sums items : forall pre n,
  NoDup (Dict.keys (pre ++ items)) ->
  (foldl (decay_step now) (mkService (pre ++ items) sums, n) items).1
  = mkService (pre ++ omap (swept_entry now) items) sums.
Proof.
  induction items as [|[k c] items IH]; intros pre n Hnd; [reflexivity|].
  assert (Hk : k ∉ Dict.keys pre).
  { unfold Dict.keys in *. rewrite fmap_app in Hnd.
    apply NoDup_app in Hnd as (_ & Hdis & _).
    intros Hin. apply (Hdis k Hin). simpl. apply list_elem_of_here. }
  cbn [foldl].
  pose proof (decay_step_pointwise now pre k c items sums n Hk) as Hstep.
  destruct (decay_step now (mkService (pre ++ (k, c) :: items) sums, n) (k, c))
    as [s1 n1]. simpl in Hstep. subst s1.
  rewrite app_assoc. rewrite IH.
  - rewrite <- app_assoc. f_equal. f_equal. simpl.
    now destruct (swept_entry now (k, c)).
  - rewrite <- app_assoc. unfold Dict.keys in *.
    rewrite !fmap_app in *. simpl in Hnd.
    destruct (swept_entry now (k, c)) as [e'|] eqn:E; simpl.
    + apply swept_entry_key in E. simpl in E. now rewrite E.
    + apply NoDup_app in Hnd as (Hpre & Hdis & Hrest).
      apply NoDup_cons in Hrest as [_ Hrest].
      apply NoDup_app. split; [exact Hpre|]. split; [|exact Hrest].
      intros x Hx Hx'. apply (Hdis x Hx). now apply list_elem_of_further.
Qed.

Lemma swept_fixed now c c' : swept now c = Some c' -> swept now c' = Some c'.
Proof.
  unfold swept, stale, decayed_entry.
  destruct (days decay_threshold <? now - last_accessed c) eqn:Hs.
  - destruct (Qltb (importance_score c) (1 # 2)) eqn:Hq; [discriminate|].
    destruct (compressed c || _) eqn:Hc; intros [= <-].
    + now rewrite Hs, Hq, Hc.
    + simpl. now rewrite Hs, Hq.
  - intros [= <-]. now rewrite Hs.
Qed.

Lemma omap_swept_entry_keys now d :
  sublist (Dict.keys (omap (swept_entry now) d)) (Dict.keys d).
Proof.
  induction d as [|e d IH]; simpl; [constructor|].
  destruct (swept_entry now e) as [e'|] eqn:E; simpl.
  - apply swept_entry_key in E. rewrite E. now apply sublist_skip.
  - now apply sublist_cons.
Qed.

Lemma prevent_decay_omap now s :
  Dict.wf (context_chunks s) ->
  (prevent_decay now s).2
  = mkService (omap (swept_entry now) (context_chunks s)) (context_summaries s).
Proof.
  intros Hwf. rewrite prevent_decay_state. destruct s as [chunks sums]. simpl.
  exact (decay_fold_pointwise now sums chunks [] 0 Hwf).
Qed.

(** The sweep treats every chunk on its own and keeps the order of the
    store: with distinct ids, the store after the sweep is the store before
    it with each entry either dropped, compressed in place or left as it
    is; a chunk that is not stale is left as it is; the summaries are
    untouched. *)
Theorem prevent_decay_pointwise now s :
  Dict.wf (context_chunks s) ->
  (prevent_decay now s).2
  = mkService (omap (swept_entry now) (context_chunks s)) (context_summaries s)
  /\ (forall e, stale now e.2 = false -> swept_entry now e = Some e)
  /\ sublist (Dict.keys (context_chunks (prevent_decay now s).2))
       (Dict.keys (context_chunks s)).
Proof.
  intros Hwf. rewrite (prevent_decay_omap now s Hwf). split; [reflexivity|]. split.
  - intros [k c] Hfresh. unfold swept_entry, swept. simpl in *. now rewrite Hfresh.
  - simpl. apply omap_swept_entry_keys.
Qed.

Lemma prevent_decay_pointwise_witness :
  (prevent_decay (days 31) Examples.two_hits).2 = mkService [] [].
Proof.
  assert (Hwf : Dict.wf (context_chunks Examples.two_hits)).
  { unfold Dict.wf. vm_compute. apply NoDup_cons. split.
    - intros H. apply list_elem_of_singleton in H. discriminate H.
    - apply NoDup_singleton. }
  rewrite (proj1 (prevent_decay_pointwise (days 31) Examples.two_hits Hwf)).
  reflexivity.
Defined.

Lemma decay_fold_count now items : forall acc,
  (foldl (decay_step now) acc items).2
  = acc.2 + Z.of_nat (length (List.filter (fun e => stale now e.2) items)).
Proof.
  induction items as [|[k c] items IH]; intros [s n]; simpl; [lia|].
  rewrite IH. unfold stale at 2. simpl.
  destruct (days decay_threshold <? now - last_accessed c); simpl; [|lia].
  destruct (Qltb _ _); simpl length; simpl snd; lia.
Qed.

Lemma stale_entries_values now (d : list (string * ContextChunk)) :
  length (List.filter (fun e => stale now e.2) d)
  = length (List.filter (stale now) (Dict.values d)).
Proof.
  induction d as [|[k c] d IH]; simpl; [reflexivity|].
  destruct (stale now c); simpl; now rewrite IH.
Qed.

(** The number the sweep reports is the number of chunks that were stale
    when it started, whether they were removed, compressed, or stale but
    left as they were because compression refused them. *)
Theorem prevent_decay_count now s :
  (prevent_decay now s).1
  = Z.of_nat (length (List.filter (stale now) (Dict.values (context_chunks s)))).
Proof.
  unfold prevent_decay.
  pose proof (decay_fold_count now (context_chunks s) (s, 0)) as H.
  destruct (foldl _ _ _) as [s' n]. cbn [fst snd] in *. rewrite H, Z.add_0_l.
  now rewrite stale_entries_values.
Qed.

(** Sweeping twice at the same time is sweeping once: the second sweep
    leaves the store exactly as the first one left it. *)
Theorem prevent_decay_idempotent now s :
  Dict.wf (context_chunks s) ->
  (prevent_decay now (prevent_decay now s).2).2 = (prevent_decay now s).2.
Proof.
  intros Hwf. rewrite (prevent_decay_omap now s Hwf).
  rewrite prevent_decay_omap.
  - simpl. f_equal. apply omap_idem.
    intros [k c] [k' c'] H. unfold swept_entry in *. simpl in *.
    destruct (swept now c) as [c0|] eqn:E; simpl in H; [|discriminate].
    injection H as <- <-. now rewrite (swept_fixed now c c0 E).
  - simpl. unfold Dict.wf in *.
    eapply sublist_NoDup; [exact Hwf | apply omap_swept_entry_keys].
Qed.

Lemma prevent_decay_idempotent_witness :
  (prevent_decay (days 31) (prevent_decay (days 31) Examples.short_insight).2).2
  = (prevent_decay (days 31) Examples.short_insight).2.
Proof.
  apply prevent_decay_idempotent. apply NoDup_singleton.
Defined.

End SweepMore.

(** ** Statistics *)

Section StatisticsFacts.
Import ContextService.

Section Tally.
Context {K : Type} (eqb : K -> K -> bool).
Hypothesis eqb_eq : forall a b, eqb a b = true <-> a = b.

Lemma sum_list_cons (x : nat) (l : list nat) : sum_list (x :: l) = (x + sum_list l)%nat.
Proof. reflexivity. Qed.

Lemma bump_sum k (d : list (K * nat)) :
  sum_list (bump eqb k d).*2 = (sum_list d.*2 + 1)%nat.
Proof.
  induction d as [|[k0 n] d IH]; [reflexivity|].
  cbn [bump]. destruct (eqb k k0); rewrite !fmap_cons, !sum_list_cons; cbn [snd];
    [lia | rewrite IH; lia].
Qed.

Lemma bump_keys k (d : list (K * nat)) :
  (bump eqb k d).*1 = d.*1 /\ k ∈ d.*1 \/ (bump eqb k d).*1 = d.*1 ++ [k] /\ k ∉ d.*1.
Proof.
  induction d as [|[k0 n] d IH].
  - right. split; [reflexivity | apply not_elem_of_nil].
  - cbn [bump]. destruct (eqb k k0) eqn:E; rewrite !fmap_cons; cbn [fst].
    + apply eqb_eq in E as ->. left. split; [reflexivity | apply list_elem_of_here].
    + assert (k <> k0) as Hne
        by (intros ->; rewrite (proj2 (eqb_eq k0 k0) eq_refl) in E; discriminate).
      destruct IH as [[Heq Hin]|[Heq Hnot]]; rewrite Heq.
      * left. split; [reflexivity | now apply list_elem_of_further].
      * right. split; [reflexivity|]. now apply not_elem_of_cons.
Qed.

Lemma bump_NoDup k (d : list (K * nat)) : NoDup d.*1 -> NoDup (bump eqb k d).*1.
Proof.
  intros Hd. destruct (bump_keys k d) as [[-> _]|[-> Hnot]]; [exact Hd|].
  apply NoDup_app. split; [exact Hd|]. split; [|apply NoDup_singleton].
  intros x Hx Hk. apply list_elem_of_singleton in Hk as ->. contradiction.
Qed.

Lemma bump_positive k (d : list (K * nat)) :
  Forall (fun e => (1 <= e.2)%nat) d -> Forall (fun e => (1 <= e.2)%nat) (bump eqb k d).
Proof.
  induction d as [|[k0 n] d IH]; intros Hd; cbn [bump].
  - repeat constructor.
  - apply Forall_cons in Hd as [H0 Hd].
    destruct (eqb k k0); constructor; simpl in *; auto; lia.
Qed.

Lemma tally_fold ks : forall d,
  NoDup d.*1 -> Forall (fun e => (1 <= e.2)%nat) d ->
  let r := foldl (fun counts k => bump eqb k counts) d ks in
  sum_list r.*2 = (sum_list d.*2 + length ks)%nat
  /\ NoDup r.*1
  /\ Forall (fun e => (1 <= e.2)%nat) r.
Proof.
  induction ks as [|k ks IH]; intros d Hnd Hpos; cbv zeta; cbn [foldl length].
  - split; [lia | auto].
  - destruct (IH (bump eqb k d) (bump_NoDup k d Hnd) (bump_positive k d Hpos))
      as (Hsum & Hnd' & Hpos').
    split; [|auto]. rewrite Hsum, bump_sum. lia.
Qed.

Lemma tally_sound ks :
  sum_list (tally eqb ks).*2 = length ks
  /\ NoDup (tally eqb ks).*1
  /\ Forall (fun e => (1 <= e.2)%nat) (tally eqb ks).
Proof.
  destruct (tally_fold ks [] (NoDup_nil_2) (Forall_nil_2 _)) as (Hsum & Hnd & Hpos).
  unfold tally. auto.
Qed.

End Tally.

(** The statistics are consistent with the store they are taken from: the
    counts per type and the counts per priority each add up to the number
    of chunks, no type or priority is listed twice or with a count of zero,
    the compressed chunks are at most all chunks, and the compression rate
    lies between 0 and 1, being 0 for the empty store. *)
Theorem statistics_consistent (s : Service) :
  let st := get_context_statistics s in
  total_chunks st = length (context_chunks s)
  /\ total_summaries st = length (context_summaries s)
  /\ (compressed_chunks st <= total_chunks st)%nat
  /\ sum_list (type_distribution st).*2 = total_chunks st
  /\ sum_list (priority_distribution st).*2 = total_chunks st
  /\ NoDup (type_distribution st).*1
  /\ NoDup (priority_distribution st).*1
  /\ Forall (fun e => (1 <= e.2)%nat) (type_distribution st)
  /\ Forall (fun e => (1 <= e.2)%nat) (priority_distribution st)
  /\ (0 <= compression_rate st <= 1)%Q
  /\ (compression_rate (get_context_statistics init) == 0)%Q.
Proof.
  cbv zeta. unfold get_context_statistics. simpl.
  set (chunks := Dict.values (context_chunks s)).
  assert (Hlen : length chunks = length (context_chunks s))
    by (unfold chunks, Dict.values; apply length_map).
  pose proof (length_filter_le compressed chunks) as Hc.
  destruct (tally_sound String.eqb String.eqb_eq
              (map (fun c => type_value (context_type c)) chunks)) as (Ht1 & Ht2 & Ht3).
  destruct (tally_sound Z.eqb Z.eqb_eq
              (map (fun c => priority_value (priority c)) chunks)) as (Hp1 & Hp2 & Hp3).
  rewrite length_map in Ht1, Hp1.
  repeat split; auto.
  - destruct (Nat.ltb_spec 0 (length chunks)); [|discriminate].
    unfold Qle. simpl. lia.
  - destruct (Nat.ltb_spec 0 (length chunks)) as [Hpos|]; [|discriminate].
    unfold Qle. simpl Qnum. simpl Qden.
    assert (Z.pos (Pos.of_nat (length chunks)) = Z.of_nat (length chunks)) as ->
      by (destruct (length chunks); [lia | simpl; lia]).
    lia.
Qed.

End StatisticsFacts.

(** ** The routes *)

Section RouteFacts.
Import ContextService Routes.

(** The type names the routes accept are exactly the values of the six
    members: parsing the value of a member gives the member back, and a
    string that parses is the value of the member it parses to. *)
Theorem context_type_value_round_trip :
  (forall t, ContextType_of_value (type_value t) = Some t)
  /\ (forall v t, ContextType_of_value v = Some t -> type_value t = v).
Proof.
  split; [intros []; reflexivity|].
  intros v t. unfold ContextType_of_value.
  repeat match goal with
         | |- context [String.eqb v ?c] => destruct (String.eqb_spec v c) as [->|_]
         end; intros [= <-]; reflexivity.
Qed.

Lemma context_type_value_round_trip_witness :
  type_value TRAINING_DATA = "training_data".
Proof.
  apply (proj2 context_type_value_round_trip "training_data" TRAINING_DATA).
  reflexivity.
Defined.

(** [POST /context/store] never stores anything: the priority arrives as a
    string, no member of the priority enum has a string value, and so every
    request, whatever it holds, is answered with status 400 and leaves the
    service as it was. *)
Theorem store_context_route_rejects_all request context_id now s :
  store_context_route request context_id now s = (HTTPException 400, s).
Proof.
  unfold store_context_route.
  destruct (ContextType_of_value (req_context_type request)); reflexivity.
Qed.

(** [POST /context/summarize] answers status 500 and changes nothing when
    no id names a stored chunk (no summary is ever filed under the empty
    id); when some id names a stored chunk it answers with the view of the
    record it has just filed under the new id, and that record lists the
    ids as they were passed. *)
Theorem summarize_contexts_route_outcome ids summary_type new_id now s :
  ((forall cid, cid ∈ ids -> Dict.get cid (context_chunks s) = None) ->
   Dict.get EmptyString (context_summaries s) = None ->
   summarize_contexts_route ids summary_type new_id now s = (HTTPException 500, s))
  /\ (forall cid,
        cid ∈ ids -> is_Some (Dict.get cid (context_chunks s)) ->
        exists record,
          (summarize_contexts_route ids summary_type new_id now s).1
          = Body (summary_response record)
          /\ resp_id (summary_response record) = new_id
          /\ original_chunks record = ids
          /\ Dict.get new_id
               (context_summaries (summarize_contexts_route ids summary_type new_id now s).2)
             = Some record).
Proof.
  unfold summarize_contexts_route, summarize_contexts. split.
  - intros Hnone Hempty. rewrite found_chunks_none by exact Hnone. now rewrite Hempty.
  - intros cid Hin Hsome. pose proof (found_chunks_some ids s cid Hin Hsome) as Hne.
    destruct (found_chunks ids s) as [|c cs]; [congruence|].
    cbn [fst snd context_summaries]. rewrite get_set_eq.
    eexists. split; [reflexivity|]. simpl. rewrite get_set_eq. auto.
Qed.

Lemma summarize_contexts_route_outcome_witness :
  summarize_contexts_route ["ghost"] "general" "s1" 9 Examples.two_hits
  = (HTTPException 500, Examples.two_hits)
  /\ exists record,
       (summarize_contexts_route ["ghost"; "b"] "general" "s1" 9 Examples.two_hits).1
       = Body (summary_response record)
       /\ original_chunks record = ["ghost"; "b"].
Proof.
  split.
  - apply (proj1 (summarize_contexts_route_outcome ["ghost"] "general" "s1" 9
                    Examples.two_hits)); [|reflexivity].
    intros cid Hcid. apply list_elem_of_singleton in Hcid as ->. reflexivity.
  - destruct (proj2 (summarize_contexts_route_outcome ["ghost"; "b"] "general" "s1" 9
                       Examples.two_hits) "b")
      as (record & Hbody & _ & Horig & _).
    + apply list_elem_of_further, list_elem_of_here.
    + vm_compute. eauto.
    + exists record. split; [exact Hbody | exact Horig].
Defined.

End RouteFacts.
